(** * SWE-Week-Tracker: the dashboard's helpers and handlers

    A shallow embedding of [src/utils/helpers.js] ([formatCurrency],
    [calculateMetrics]) and of the pure parts of [src/App.jsx]
    ([filteredData], [handleToggleDone], [handleExportToCSV]), followed by
    the properties the specification states about them.

    Conventions of the embedding.
    - A JavaScript number is an integer amount of currency units, a [Z].
      On whole amounts below 2^53 in magnitude, the sums, differences and
      comparisons of the source are exact, and coincide with those of [Z];
      beyond, the source rounds to the nearest double and [Z] does not.
      The properties that state the value of a sum or the digits of a
      numeral therefore assume [safe_amounts] or a bound by
      [MAX_SAFE_INTEGER]; fractional amounts are outside the embedding.
    - A JavaScript string is a [string] (its UTF-8 bytes).
    - [cost] is inspected with [typeof] and [===] by the source, so it is a
      dynamically typed [value]; the other fields have the types of the
      [initialData] literal.
    - A statement that may throw returns a [result]. *)

From Stdlib Require Import String Ascii ZArith NArith List Bool Lia.
From Stdlib Require Import Sorted Permutation DecimalString DecimalN DecimalFacts.
From Stdlib Require Import DecimalZ.
Import ListNotations.

Open Scope string_scope.
Open Scope Z_scope.

(* ================================================================== *)
(** * Part I. The embedding                                            *)
(* ================================================================== *)

(** ** Values, line items, results *)

Inductive value : Type :=
| VUndefined
| VNull
| VBool (b : bool)
| VNum (n : Z)
| VStr (s : string).

(** [typeof v === 'number'] *)
Definition is_number (v : value) : bool :=
  match v with VNum _ => true | _ => false end.

(** [a === b] *)
Definition strict_equal (a b : value) : bool :=
  match a, b with
  | VUndefined, VUndefined => true
  | VNull, VNull => true
  | VBool x, VBool y => Bool.eqb x y
  | VNum x, VNum y => Z.eqb x y
  | VStr x, VStr y => String.eqb x y
  | _, _ => false
  end.

(** One record of [initialData].  A record without [excludeFromSum] reads
    the field as [undefined], which [!] treats as [false]. *)
Record item : Type := mkItem {
  id : string;
  type : string;
  description : string;
  event : string;
  cost : value;
  costType : string;
  status : string;
  excludeFromSum : bool;
  done : bool
}.

Inductive error : Type := TypeError.

Inductive result (A : Type) : Type :=
| Ok (a : A)
| Throw (e : error).
Arguments Ok {A} a.
Arguments Throw {A} e.

Definition bind {A B : Type} (r : result A) (k : A -> result B) : result B :=
  match r with
  | Ok a => k a
  | Throw e => Throw e
  end.

Notation "x <- r ;; k" := (bind r (fun x => k))
  (at level 100, r at next level, right associativity).

(** ** Strings *)

(** [s.includes(sub)] *)
Fixpoint includes (s sub : string) : bool :=
  prefix sub s ||
  match s with
  | EmptyString => false
  | String _ s' => includes s' sub
  end.

(** [Number.prototype.toString] on a whole number of magnitude below 10^21:
    the sign and every decimal digit.  (From 10^21 on the source prints an
    exponent, and a fraction prints its fractional digits.) *)
Definition Number_toString (n : Z) : string :=
  NilEmpty.string_of_int (Z.to_int n).

(** After each digit, a comma when a positive multiple of three digits
    remains. *)
Fixpoint group_digits (s : string) : string :=
  match s with
  | EmptyString => EmptyString
  | String c rest =>
      String c
        (if (0 <? String.length rest)%nat && (String.length rest mod 3 =? 0)%nat
         then String "," (group_digits rest)
         else group_digits rest)
  end.

(** [Number.prototype.toLocaleString('en-US')] on a whole number: the sign,
    then the decimal digits in groups of three separated by commas.  (A
    fraction would add up to three fractional digits.) *)
Definition toLocaleString_enUS (n : Z) : string :=
  (if n <? 0 then "-" else "") ++
  group_digits (NilEmpty.string_of_uint (N.to_uint (Z.abs_N n))).

(** ** helpers.js: formatCurrency *)

Definition formatCurrency (amount : value) : string :=
  if strict_equal amount (VStr "N/A") then "N/A"
  else
    match amount with
    | VNum n => "₦" ++ toLocaleString_enUS n
    | _ => "Error"
    end.

(** ** Ordinary objects used as string-keyed maps

    The own properties of an object literal are kept in creation order.
    A property read that finds no own property continues in
    [Object.prototype]. *)

Definition jsobject (V : Type) : Type := list (string * V).

Fixpoint getOwn {V : Type} (k : string) (o : jsobject V) : option V :=
  match o with
  | [] => None
  | (k', v) :: o' => if String.eqb k k' then Some v else getOwn k o'
  end.

(** [o[k] = v]: an existing own property keeps its place, a new one is
    created last. *)
Fixpoint setOwn {V : Type} (k : string) (v : V) (o : jsobject V) : jsobject V :=
  match o with
  | [] => [(k, v)]
  | (k', v') :: o' =>
      if String.eqb k k' then (k', v) :: o' else (k', v') :: setOwn k v o'
  end.

(** The property names of [Object.prototype]; each holds a function, except
    the accessor [__proto__], which yields [Object.prototype] itself. *)
Definition Object_prototype_keys : list string :=
  [ "constructor"; "__defineGetter__"; "__defineSetter__"; "hasOwnProperty";
    "__lookupGetter__"; "__lookupSetter__"; "isPrototypeOf";
    "propertyIsEnumerable"; "toString"; "valueOf"; "__proto__";
    "toLocaleString" ].

Definition inherited (k : string) : bool :=
  existsb (String.eqb k) Object_prototype_keys.

(** What [o[k]] evaluates to. *)
Inductive member (V : Type) : Type :=
| MOwn (v : V)
| MForeign
| MUndefined.
Arguments MOwn {V} v.
Arguments MForeign {V}.
Arguments MUndefined {V}.

Definition get {V : Type} (k : string) (o : jsobject V) : member V :=
  match getOwn k o with
  | Some v => MOwn v
  | None => if inherited k then MForeign else MUndefined
  end.

(** *** Property order

    [Object.entries] lists the array-index keys first, in ascending numeric
    order, then the other string keys in creation order. *)

(** An array index is a canonical numeric string, one that printing its
    value gives back, of value at most 2^32 - 2. *)
Definition array_index (k : string) : option N :=
  match NilEmpty.uint_of_string k with
  | Some d =>
      let n := N.of_uint d in
      if String.eqb (NilEmpty.string_of_uint (N.to_uint n)) k &&
         (n <=? 4294967294)%N
      then Some n
      else None
  | None => None
  end.

Definition is_array_index (k : string) : bool :=
  match array_index k with Some _ => true | None => false end.

Definition index_of_key (k : string) : N :=
  match array_index k with Some n => n | None => 0%N end.

Fixpoint insert_by_index {V : Type} (e : string * V) (l : list (string * V))
  : list (string * V) :=
  match l with
  | [] => [e]
  | e' :: l' =>
      if (index_of_key (fst e) <=? index_of_key (fst e'))%N
      then e :: e' :: l'
      else e' :: insert_by_index e l'
  end.

Definition sort_by_index {V : Type} (l : list (string * V)) : list (string * V) :=
  fold_right insert_by_index [] l.

Definition Object_entries {V : Type} (o : jsobject V) : list (string * V) :=
  (sort_by_index (filter (fun e => is_array_index (fst e)) o) ++
   filter (fun e => negb (is_array_index (fst e))) o)%list.

(** ** Arrays *)

(** [Array.prototype.sort(compare)]: a stable sort; [a] is placed before [b]
    when [compare a b < 0], after it when [compare a b > 0], and the two
    keep their order otherwise. *)
Fixpoint sort_insert {A : Type} (compare : A -> A -> Z) (x : A) (l : list A)
  : list A :=
  match l with
  | [] => [x]
  | y :: l' =>
      if compare x y <=? 0 then x :: y :: l'
      else y :: sort_insert compare x l'
  end.

Definition Array_sort {A : Type} (compare : A -> A -> Z) (l : list A) : list A :=
  fold_right (sort_insert compare) [] l.

(** [Array.prototype.forEach] with a callback that may throw, threading the
    variables the callback assigns. *)
Fixpoint forEach {S A : Type} (f : S -> A -> result S) (l : list A) (s : S)
  : result S :=
  match l with
  | [] => Ok s
  | x :: l' => s' <- f s x ;; forEach f l' s'
  end.

(** ** helpers.js: calculateMetrics *)

Module Bucket.
Record t : Type := mk { total : Z; items : list item }.
End Bucket.

Module Grouping.
Record t : Type := mk { phase : string; total : Z }.
End Grouping.

Record metrics : Type := mkMetrics {
  totalConfirmedBudget : Z;
  unpricedItems : list item;
  top3CostGroupings : list Grouping.t
}.

(** The variables of [calculateMetrics] that the loop body updates. *)
Record locals : Type := mkLocals {
  l_totalConfirmedBudget : Z;
  l_unpricedItems : list item;
  l_costsByType : jsobject Bucket.t
}.

(** [typeof item.cost === 'number' && !item.excludeFromSum], with the cost. *)
Definition confirmed_cost (it : item) : option Z :=
  match cost it with
  | VNum n => if excludeFromSum it then None else Some n
  | _ => None
  end.

(** [costsByType[phase].total += c].  On a member of [Object.prototype] the
    assignment lands on that foreign object and leaves [costsByType] as it
    is. *)
Definition add_to_total (phase : string) (c : Z) (o : jsobject Bucket.t)
  : result (jsobject Bucket.t) :=
  match get phase o with
  | MOwn b => Ok (setOwn phase (Bucket.mk (Bucket.total b + c) (Bucket.items b)) o)
  | MForeign => Ok o
  | MUndefined => Throw TypeError
  end.

(** [costsByType[phase].items.push(it)].  A member of [Object.prototype] has
    no [items], and [undefined.push] throws. *)
Definition push_item (phase : string) (it : item) (o : jsobject Bucket.t)
  : result (jsobject Bucket.t) :=
  match get phase o with
  | MOwn b => Ok (setOwn phase (Bucket.mk (Bucket.total b) (Bucket.items b ++ [it])%list) o)
  | MForeign => Throw TypeError
  | MUndefined => Throw TypeError
  end.

(** The body of [data.forEach(item => ...)]. *)
Definition visit (st : locals) (it : item) : result locals :=
  let total1 :=
    match confirmed_cost it with
    | Some c => l_totalConfirmedBudget st + c
    | None => l_totalConfirmedBudget st
    end in
  let unpriced1 :=
    if String.eqb (status it) "Unpriced"
    then (l_unpricedItems st ++ [it])%list
    else l_unpricedItems st in
  let phase := event it in
  let costs1 :=
    match get phase (l_costsByType st) with
    | MUndefined => setOwn phase (Bucket.mk 0 []) (l_costsByType st)
    | _ => l_costsByType st
    end in
  costs2 <- match confirmed_cost it with
            | Some c => add_to_total phase c costs1
            | None => Ok costs1
            end ;;
  costs3 <- push_item phase it costs2 ;;
  Ok (mkLocals total1 unpriced1 costs3).

(** The predicate of [.filter(([key, value]) => ...)]. *)
Definition qualifies (e : string * Bucket.t) : bool :=
  negb (includes (fst e) "Summary") &&
  negb (includes (fst e) "Budget") &&
  (0 <? Bucket.total (snd e)).

(** The comparator of [.sort(([, a], [, b]) => b.total - a.total)]. *)
Definition by_total_desc (a b : string * Bucket.t) : Z :=
  Bucket.total (snd b) - Bucket.total (snd a).

Definition sortedCosts (costsByType : jsobject Bucket.t)
  : list (string * Bucket.t) :=
  firstn 3 (Array_sort by_total_desc (filter qualifies (Object_entries costsByType))).

Definition to_grouping (e : string * Bucket.t) : Grouping.t :=
  Grouping.mk (fst e) (Bucket.total (snd e)).

Definition calculateMetrics (data : list item) : result metrics :=
  st <- forEach visit data (mkLocals 0 [] []) ;;
  Ok (mkMetrics (l_totalConfirmedBudget st)
                (l_unpricedItems st)
                (map to_grouping (sortedCosts (l_costsByType st)))).

(** ** calculateMetrics over a store

    The same function with its objects in a store, so that what it writes
    and where is explicit: the input array and the line items are cells
    that exist before the call, [unpricedItems] and the buckets are cells
    the call allocates.  [unpricedItems] and the [items] of a bucket hold
    references to the very line items of the input.  A bucket cell carries
    its [items] array, which is reachable through the bucket only.  The
    bucket object [costsByType] never leaves the function and is kept as
    the table of its own properties, each a reference to a bucket. *)

Definition loc : Type := nat.

Inductive cell : Type :=
| CItem (it : item)
| CArray (elements : list loc)
| CBucket (total : Z) (items : list loc).

(** [foreign_totals] names the members of [Object.prototype] on which a
    [total] property has been assigned. *)
Record heap : Type := mkHeap {
  cells : list cell;
  foreign_totals : list string
}.

Definition read (l : loc) (h : heap) : option cell := nth_error (cells h) l.

Fixpoint update {A : Type} (n : nat) (x : A) (l : list A) : list A :=
  match l, n with
  | [], _ => []
  | _ :: l', O => x :: l'
  | y :: l', S n' => y :: update n' x l'
  end.

Definition write (l : loc) (c : cell) (h : heap) : heap :=
  mkHeap (update l c (cells h)) (foreign_totals h).

(** A computation on the store that may throw. *)
Definition M (A : Type) : Type := heap -> result A * heap.

Definition ret {A : Type} (a : A) : M A := fun h => (Ok a, h).

Definition throw {A : Type} (e : error) : M A := fun h => (Throw e, h).

Definition bindM {A B : Type} (m : M A) (k : A -> M B) : M B :=
  fun h =>
    match m h with
    | (Ok a, h') => k a h'
    | (Throw e, h') => (Throw e, h')
    end.

Notation "'let!' x ':=' m 'in' k" := (bindM m (fun x => k))
  (at level 10, x pattern, m at level 100, k at level 200).

Definition alloc (c : cell) : M loc :=
  fun h => (Ok (length (cells h)),
            mkHeap (cells h ++ [c])%list (foreign_totals h)).

Definition read_item (l : loc) : M item :=
  fun h =>
    match read l h with
    | Some (CItem it) => (Ok it, h)
    | _ => (Throw TypeError, h)
    end.

Definition read_array (l : loc) : M (list loc) :=
  fun h =>
    match read l h with
    | Some (CArray elements) => (Ok elements, h)
    | _ => (Throw TypeError, h)
    end.

Definition read_bucket (l : loc) : M (Z * list loc) :=
  fun h =>
    match read l h with
    | Some (CBucket total items) => (Ok (total, items), h)
    | _ => (Throw TypeError, h)
    end.

Definition write_bucket (l : loc) (total : Z) (items : list loc) : M unit :=
  fun h => (Ok tt, write l (CBucket total items) h).

(** [array.push(x)] *)
Definition push (array : loc) (x : loc) : M unit :=
  let! elements := read_array array in
  fun h => (Ok tt, write array (CArray (elements ++ [x])%list) h).

(** An assignment of [total] on the member [k] of [Object.prototype]. *)
Definition assign_foreign_total (k : string) : M unit :=
  fun h => (Ok tt, mkHeap (cells h) (k :: foreign_totals h)).

Fixpoint forEachM {S A : Type} (f : S -> A -> M S) (l : list A) (s : S) : M S :=
  match l with
  | [] => ret s
  | x :: l' => let! s' := f s x in forEachM f l' s'
  end.

Fixpoint mapM {A B : Type} (f : A -> M B) (l : list A) : M (list B) :=
  match l with
  | [] => ret []
  | x :: l' => let! y := f x in let! ys := mapM f l' in ret (y :: ys)
  end.

Record locals_h : Type := mkLocalsH {
  h_totalConfirmedBudget : Z;
  h_unpricedItems : loc;
  h_costsByType : jsobject loc
}.

Definition add_to_total_h (phase : string) (c : Z) (o : jsobject loc) : M unit :=
  match get phase o with
  | MOwn b =>
      let! bucket := read_bucket b in
      write_bucket b (fst bucket + c) (snd bucket)
  | MForeign => assign_foreign_total phase
  | MUndefined => throw TypeError
  end.

Definition push_item_h (phase : string) (it : loc) (o : jsobject loc) : M unit :=
  match get phase o with
  | MOwn b =>
      let! bucket := read_bucket b in
      write_bucket b (fst bucket) (snd bucket ++ [it])%list
  | MForeign => throw TypeError
  | MUndefined => throw TypeError
  end.

Definition visit_h (st : locals_h) (ref : loc) : M locals_h :=
  let! it := read_item ref in
  let total1 :=
    match confirmed_cost it with
    | Some c => h_totalConfirmedBudget st + c
    | None => h_totalConfirmedBudget st
    end in
  let! _ := (if String.eqb (status it) "Unpriced"
             then push (h_unpricedItems st) ref
             else ret tt) in
  let phase := event it in
  let! costs1 :=
    match get phase (h_costsByType st) with
    | MUndefined =>
        let! b := alloc (CBucket 0 []) in
        ret (setOwn phase b (h_costsByType st))
    | _ => ret (h_costsByType st)
    end in
  let! _ := match confirmed_cost it with
            | Some c => add_to_total_h phase c costs1
            | None => ret tt
            end in
  let! _ := push_item_h phase ref costs1 in
  ret (mkLocalsH total1 (h_unpricedItems st) costs1).

(** The buckets as [Object.entries] and the callbacks after it read them. *)
Definition read_entry (e : string * loc) : M (string * Bucket.t) :=
  let! bucket := read_bucket (snd e) in
  let! its := mapM read_item (snd bucket) in
  ret (fst e, Bucket.mk (fst bucket) its).

(** The returned object: a number, a reference to the [unpricedItems]
    array, and the fresh grouping records. *)
Record metrics_h : Type := mkMetricsH {
  h_total : Z;
  h_unpriced : loc;
  h_top3 : list Grouping.t
}.

Definition calculateMetrics_h (data : loc) : M metrics_h :=
  let! unpricedItems := alloc (CArray []) in
  let! elements := read_array data in
  let! st := forEachM visit_h elements (mkLocalsH 0 unpricedItems []) in
  let! entries := mapM read_entry (h_costsByType st) in
  ret (mkMetricsH (h_totalConfirmedBudget st) unpricedItems
                  (map to_grouping (sortedCosts entries))).

(** The line items an array of references denotes. *)
Fixpoint items_of (h : heap) (refs : list loc) : option (list item) :=
  match refs with
  | [] => Some []
  | r :: refs' =>
      match read r h, items_of h refs' with
      | Some (CItem it), Some its => Some (it :: its)
      | _, _ => None
      end
  end.

Definition items_at (h : heap) (array : loc) : option (list item) :=
  match read array h with
  | Some (CArray elements) => items_of h elements
  | _ => None
  end.

(** What a caller sees of an outcome: the thrown error, or the returned
    numbers and groupings and the line items of [unpricedItems]. *)
Definition observe (h : heap) (r : result metrics_h) : option (result metrics) :=
  match r with
  | Throw e => Some (Throw e)
  | Ok m =>
      match items_at h (h_unpriced m) with
      | Some its => Some (Ok (mkMetrics (h_total m) its (h_top3 m)))
      | None => None
      end
  end.

(** *** The store against the function

    [h] has every cell of [h0], unchanged. *)
Definition extends (h0 h : heap) : Prop :=
  forall l c, read l h0 = Some c -> read l h = Some c.

Definition fresh (h0 : heap) (l : loc) : Prop := read l h0 = None.

(** The property [e] of the bucket object refers to a cell allocated since
    [h0] that holds the bucket [e']. *)
Definition bucket_at (h0 h : heap) (e : string * loc) (e' : string * Bucket.t)
  : Prop :=
  fst e = fst e' /\
  fresh h0 (snd e) /\
  exists refs,
    read (snd e) h = Some (CBucket (Bucket.total (snd e')) refs) /\
    items_of h0 refs = Some (Bucket.items (snd e')).

(** The store [h], the reference [u] to [unpricedItems] and the table [cs]
    of bucket references stand for the values [unp] and [co] of the
    function, the line items being read in the initial store [h0]. *)
Definition sim (h0 h : heap) (u : loc) (cs : jsobject loc)
    (unp : list item) (co : jsobject Bucket.t) : Prop :=
  extends h0 h /\
  fresh h0 u /\
  (exists refs, read u h = Some (CArray refs) /\ items_of h0 refs = Some unp) /\
  Forall2 (bucket_at h0 h) cs co /\
  NoDup (u :: map snd cs).

(** The computation [m] assigns nothing on a member of [Object.prototype]. *)
Definition keeps_foreign {A : Type} (m : M A) : Prop :=
  forall h r h', m h = (r, h') -> foreign_totals h' = foreign_totals h.

(** ** App.jsx: filteredData *)

Module Filters.
Record t : Type := mk { type : string; cost : string }.
End Filters.

(** The predicate of [data.filter(item => ...)]. *)
Definition visible (filters : Filters.t) (it : item) : bool :=
  if String.eqb (costType it) "Summary" || String.eqb (costType it) "Budget"
  then String.eqb (Filters.type filters) "All" &&
       String.eqb (Filters.cost filters) "All"
  else
    let matchesType :=
      String.eqb (Filters.type filters) "All" ||
      String.eqb (type it) (Filters.type filters) in
    let matchesCostStatus :=
      String.eqb (Filters.cost filters) "All" ||
      String.eqb (status it) (Filters.cost filters) in
    matchesType && matchesCostStatus.

Definition filteredData (data : list item) (filters : Filters.t) : list item :=
  filter (visible filters) data.

(** ** App.jsx: handleToggleDone *)

(** [{ ...item, done: isChecked }] *)
Definition with_done (it : item) (isChecked : bool) : item :=
  mkItem (id it) (type it) (description it) (event it) (cost it)
         (costType it) (status it) (excludeFromSum it) isChecked.

(** The updater handed to [setData]. *)
Definition handleToggleDone (id0 : string) (isChecked : bool)
    (prevData : list item) : list item :=
  map (fun it => if String.eqb (id it) id0 then with_done it isChecked else it)
      prevData.

(** ** App.jsx: handleExportToCSV *)

Definition dquote : ascii := "034"%char.
Definition newline : string := String "010"%char EmptyString.

Definition headers : list string :=
  [ "Completed"; "ID"; "Description"; "Event Phase"; "Type"; "Cost Type";
    "Projected Cost (₦)"; "Notes" ].

(** [s.replace] of every double quote by two double quotes (global flag). *)
Fixpoint double_quotes (s : string) : string :=
  match s with
  | EmptyString => EmptyString
  | String c s' =>
      if Ascii.eqb c dquote
      then String dquote (String dquote (double_quotes s'))
      else String c (double_quotes s')
  end.

Definition costStr (it : item) : string :=
  if strict_equal (cost it) (VStr "N/A") then "N/A"
  else
    match cost it with
    | VNum n => Number_toString n
    | _ => ""
    end.

Definition notes (it : item) : string :=
  if String.eqb (status it) "Unpriced" then "QUOTE NEEDED"
  else if String.eqb (costType it) "Summary" then "SUMMARY LINE"
  else "".

Definition row_fields (it : item) : list string :=
  [ if done it then "YES" else "NO";
    id it;
    double_quotes (description it);
    event it;
    type it;
    costType it;
    costStr it;
    notes it ].

(** The template literal that wraps a field in double quotes. *)
Definition quoted (field : string) : string :=
  String dquote (field ++ String dquote EmptyString).

Definition csvRow (it : item) : string :=
  String.concat "," (map quoted (row_fields it)).

Definition csvRows (data : list item) : list string := map csvRow data.

(** The text handed to [navigator.clipboard.writeText]. *)
Definition handleExportToCSV (data : list item) : string :=
  String.concat newline (String.concat "," headers :: csvRows data).

(** ** App.jsx: handleFilterChange *)

Fixpoint drop (n : nat) (s : string) : string :=
  match n, s with
  | O, _ => s
  | S n', String _ s' => drop n' s'
  | S _, EmptyString => EmptyString
  end.

(** [s.replace(pattern, replacement)] with a string pattern: the first
    occurrence is replaced. *)
Fixpoint replace_first (pattern replacement s : string) : string :=
  if prefix pattern s
  then replacement ++ drop (String.length pattern) s
  else
    match s with
    | EmptyString => EmptyString
    | String c s' => String c (replace_first pattern replacement s')
    end.

(** The updater handed to [setFilters], for a change event of an element of
    id [target_id] and value [value].  The filter object is read at [type]
    and [cost] only; a property written under another name is not kept. *)
Definition handleFilterChange (target_id value : string) (prevFilters : Filters.t)
  : Filters.t :=
  let key := replace_first "filter-" "" target_id in
  if String.eqb key "type" then Filters.mk value (Filters.cost prevFilters)
  else if String.eqb key "cost" then Filters.mk (Filters.type prevFilters) value
  else prevFilters.

(** ** SummaryCards.jsx: the cost-grouping card *)

(** The paragraph shown when there is no grouping, or for each grouping its
    formatted total and its phase. *)
Inductive grouping_card : Type :=
| NoPricedItems
| TopGroupings (rows : list (string * string)).

Definition groupedHtml (top3 : list Grouping.t) : grouping_card :=
  if (0 <? length top3)%nat
  then TopGroupings
         (map (fun g => (formatCurrency (VNum (Grouping.total g)), Grouping.phase g))
              top3)
  else NoPricedItems.

(** ** ProcurementTable.jsx: a row of the table *)

(** The class of the [tr] element. *)
Definition rowClass (it : item) : string :=
  if strict_equal (cost it) (VStr "N/A")
  then "bg-yellow-50/50 hover:bg-yellow-50"
  else "hover:bg-gray-50".

(** The text of the cost cell. *)
Definition costCellText (it : item) : string := formatCurrency (cost it).

(** ** Vocabulary of the specification *)

(** [sub] occurs in [s] as a substring. *)
Definition contains (s sub : string) : Prop :=
  exists before after, s = before ++ sub ++ after.

(** [x] occurs in [l] at some position and [y] at a later one. *)
Fixpoint precedes {A : Type} (l : list A) (x y : A) : Prop :=
  match l with
  | [] => False
  | z :: l' => (z = x /\ In y l') \/ precedes l' x y
  end.

(** The position of the first occurrence of [k] in [l]. *)
Fixpoint first_index (k : string) (l : list string) : nat :=
  match l with
  | [] => O
  | k' :: l' => if String.eqb k k' then O else S (first_index k l')
  end.

(** The order in which an object lists two of its keys, the keys having
    been created in the order of their first occurrence in [events]: array
    indices first, by value, then the other keys as created. *)
Definition listed_before (events : list string) (k1 k2 : string) : Prop :=
  match array_index k1, array_index k2 with
  | Some n1, Some n2 => (n1 < n2)%N
  | Some _, None => True
  | None, Some _ => False
  | None, None => (first_index k1 events < first_index k2 events)%nat
  end.

(** Groupings by decreasing total. *)
Definition descending (l : list Grouping.t) : Prop :=
  StronglySorted (fun g1 g2 => Grouping.total g1 >= Grouping.total g2) l.

Definition own_keys (st : locals) : list string := map fst (l_costsByType st).

(** What one iteration adds to the confirmed budget. *)
Definition counted (it : item) : Z :=
  match confirmed_cost it with Some c => c | None => 0 end.

Definition is_unpriced (it : item) : bool := String.eqb (status it) "Unpriced".

(** No bucket is ever created under a name that [Object.prototype] holds. *)
Definition keys_safe (st : locals) : Prop :=
  forall k, In k (own_keys st) -> inherited k = false.

(** The buckets were created in the order in which their phases first
    occur in [seen], one bucket per phase. *)
Definition keys_in_order (seen keys : list string) : Prop :=
  NoDup keys /\
  (forall k, In k keys <-> In k seen) /\
  (forall k1 k2, precedes keys k1 k2 ->
                 (first_index k1 seen < first_index k2 seen)%nat).

(** The sum of the costs that count towards the confirmed budget. *)
Definition confirmed_sum (data : list item) : Z :=
  fold_right Z.add 0
    (map (fun it => match cost it with VNum n => n | _ => 0 end)
         (filter (fun it => is_number (cost it) && negb (excludeFromSum it)) data)).

Definition is_digit (c : ascii) : bool :=
  (48 <=? nat_of_ascii c)%nat && (nat_of_ascii c <=? 57)%nat.

Fixpoint all_digits (s : string) : bool :=
  match s with
  | EmptyString => true
  | String c s' => is_digit c && all_digits s'
  end.

Fixpoint remove_commas (s : string) : string :=
  match s with
  | EmptyString => EmptyString
  | String c s' =>
      if Ascii.eqb c "," then remove_commas s' else String c (remove_commas s')
  end.

(** Zero or more groups, each a comma followed by three digits. *)
Inductive comma_groups : string -> Prop :=
| comma_groups_nil : comma_groups ""
| comma_groups_cons a b c s :
    is_digit a = true -> is_digit b = true -> is_digit c = true ->
    comma_groups s ->
    comma_groups (String "," (String a (String b (String c s)))).

(** What [group_digits] emits after a digit. *)
Definition group_tail (s : string) : string :=
  if (0 <? String.length s)%nat && (String.length s mod 3 =? 0)%nat
  then String "," (group_digits s)
  else group_digits s.

(** One to three leading digits, then comma-separated groups of three. *)
Inductive thousands_grouped : string -> Prop :=
| grouped_1 a s :
    is_digit a = true -> comma_groups s -> thousands_grouped (String a s)
| grouped_2 a b s :
    is_digit a = true -> is_digit b = true -> comma_groups s ->
    thousands_grouped (String a (String b s))
| grouped_3 a b c s :
    is_digit a = true -> is_digit b = true -> is_digit c = true ->
    comma_groups s ->
    thousands_grouped (String a (String b (String c s))).

(** The inverse of [double_quotes]: a pair of double quotes reads as one. *)
Fixpoint single_quotes (s : string) : string :=
  match s with
  | EmptyString => EmptyString
  | String c s' =>
      if Ascii.eqb c dquote
      then match s' with
           | String c' s'' =>
               if Ascii.eqb c' dquote
               then String dquote (single_quotes s'')
               else String c (single_quotes s')
           | EmptyString => String c EmptyString
           end
      else String c (single_quotes s')
  end.

(** ** Vocabulary of the further properties *)

(** The confirmed costs of the lines of phase [k]. *)
Definition phase_total (data : list item) (k : string) : Z :=
  confirmed_sum (filter (fun it => String.eqb (event it) k) data).

(** The test of [.filter(([key, value]) => ...)], read on the list itself. *)
Definition phase_qualifies (data : list item) (k : string) : bool :=
  negb (includes k "Summary") &&
  negb (includes k "Budget") &&
  (0 <? phase_total data k).

(** The distinct phases of the list that pass the test. *)
Definition qualifying_phases (data : list item) : list string :=
  filter (phase_qualifies data) (nodup string_dec (map event data)).

(** Each bucket holds the lines of its phase seen so far, and their
    confirmed costs. *)
Definition buckets_of (seen : list item) (o : jsobject Bucket.t) : Prop :=
  forall k b, getOwn k o = Some b ->
    Bucket.total b = phase_total seen k /\
    Bucket.items b = filter (fun it => String.eqb (event it) k) seen.

Definition sum_totals (l : list (string * Bucket.t)) : Z :=
  fold_right (fun e acc => Bucket.total (snd e) + acc) 0 l.

Definition sum_groupings (l : list Grouping.t) : Z :=
  fold_right (fun g acc => Grouping.total g + acc) 0 l.

(** [Number.MAX_SAFE_INTEGER], 2^53 - 1: a whole number of at most this
    magnitude is a double, and a sum of two doubles whose exact value is
    such a number is that number. *)
Definition MAX_SAFE_INTEGER : Z := 9007199254740991.

(** The magnitudes of the costs that count add up to at most
    [MAX_SAFE_INTEGER].  Every sum of some of these costs, taken in any
    order, then stays within that magnitude at each step, so that the
    additions of the source, which are additions of doubles, give the exact
    sums. *)
Definition safe_amounts (data : list item) : Prop :=
  fold_right Z.add 0 (map (fun it => Z.abs (counted it)) data)
  <= MAX_SAFE_INTEGER.

(** [f] changes none of the fields that [calculateMetrics] reads. *)
Definition keeps_metric_fields (f : item -> item) : Prop :=
  forall it,
    event (f it) = event it /\ cost (f it) = cost it /\
    excludeFromSum (f it) = excludeFromSum it /\ status (f it) = status it.

Definition map_bucket (f : item -> item) (e : string * Bucket.t)
  : string * Bucket.t :=
  (fst e, Bucket.mk (Bucket.total (snd e)) (map f (Bucket.items (snd e)))).

Definition map_locals (f : item -> item) (st : locals) : locals :=
  mkLocals (l_totalConfirmedBudget st)
           (map f (l_unpricedItems st))
           (map (map_bucket f) (l_costsByType st)).

(** The function that [handleToggleDone] maps over the list. *)
Definition toggle (id0 : string) (isChecked : bool) (it : item) : item :=
  if String.eqb (id it) id0 then with_done it isChecked else it.

(** The row without its first field. *)
Definition row_tail (it : item) : string :=
  String.concat "," (map quoted (tl (row_fields it))).

Fixpoint has_quote (s : string) : bool :=
  match s with
  | EmptyString => false
  | String c s' => Ascii.eqb c dquote || has_quote s'
  end.

(** A reader of a row of quoted fields: a field starts and ends with a
    double quote, a pair of double quotes inside stands for one, and a comma
    after a field starts the next one. *)
Inductive csv_state : Type :=
| AtField
| InField (acc : string)
| AfterQuote (acc : string).

Fixpoint parse_row (s : string) (st : csv_state) : option (list string) :=
  match s, st with
  | EmptyString, AfterQuote acc => Some [acc]
  | EmptyString, _ => None
  | String c s', AtField =>
      if Ascii.eqb c dquote then parse_row s' (InField EmptyString) else None
  | String c s', InField acc =>
      if Ascii.eqb c dquote then parse_row s' (AfterQuote acc)
      else parse_row s' (InField (acc ++ String c EmptyString))
  | String c s', AfterQuote acc =>
      if Ascii.eqb c dquote
      then parse_row s' (InField (acc ++ String dquote EmptyString))
      else if Ascii.eqb c ","
           then option_map (cons acc) (parse_row s' AtField)
           else None
  end.

(** ** Sample data *)

(** The scenario of the specification. *)
Definition scenario : list item :=
  [ mkItem "1" "Procurement" "a" "A" (VNum 500) "CAPEX" "Priced" false false;
    mkItem "2" "Procurement" "b" "A" (VNum 300) "CAPEX" "Unpriced" false false;
    mkItem "3" "Cost Projection" "c" "Budget Summary" (VNum 10000) "Budget"
           "Priced" true false ].

(** The scenario in a store: its three lines, then the array of them. *)
Definition scenario_heap : heap :=
  mkHeap (map CItem scenario ++ [CArray [0; 1; 2]%nat])%list [].

(** A priced procurement line in a given phase. *)
Definition priced (id0 phase : string) (c : Z) : item :=
  mkItem id0 "Procurement" "line" phase (VNum c) "CAPEX" "Priced" false false.

(* ================================================================== *)
(** * Part II. Properties                                              *)
(* ================================================================== *)

(** ** Strings *)

Lemma prefix_spec (p s : string) :
  prefix p s = true <-> exists rest, s = p ++ rest.
Proof.
  revert s; induction p as [|c p IH]; intros s.
  - split; [intros _; now exists s | intros _; now destruct s].
  - destruct s as [|c' s]; simpl.
    + split; [discriminate | intros [rest H]; discriminate].
    + destruct (ascii_dec c c') as [->|Hne].
      * rewrite IH. split; intros [rest H]; exists rest.
        -- now rewrite H.
        -- now injection H.
      * split; [discriminate | intros [rest H]; injection H; congruence].
Qed.

Lemma includes_spec (s sub : string) :
  includes s sub = true <-> contains s sub.
Proof.
  unfold contains. induction s as [|c s IH]; cbn [includes].
  - rewrite orb_false_r, prefix_spec. split.
    + intros [rest H]. now exists "", rest.
    + intros [[|c b] [a H]]; [now exists a | discriminate].
  - rewrite orb_true_iff, prefix_spec, IH. split.
    + intros [[rest H] | [b [a H]]].
      * now exists "", rest.
      * exists (String c b), a. simpl. now rewrite H.
    + intros [[|c' b] [a H]].
      * left. now exists a.
      * right. exists b, a. simpl in H. now injection H.
Qed.

Lemma strict_equal_eq (a b : value) : strict_equal a b = true <-> a = b.
Proof.
  destruct a, b; simpl; split; intros H;
    try discriminate; try reflexivity; try congruence.
  - apply Bool.eqb_prop in H. now subst.
  - injection H as ->. apply Bool.eqb_reflx.
  - apply Z.eqb_eq in H. now subst.
  - injection H as ->. apply Z.eqb_refl.
  - apply String.eqb_eq in H. now subst.
  - injection H as ->. apply String.eqb_refl.
Qed.

(** ** Digit grouping *)

Lemma string_of_uint_all_digits (d : Decimal.uint) :
  all_digits (NilEmpty.string_of_uint d) = true.
Proof. induction d; simpl; auto. Qed.

Lemma to_uint_nonnil (n : N) : N.to_uint n <> Decimal.Nil.
Proof.
  rewrite <- (DecimalN.Unsigned.of_to n), DecimalN.Unsigned.to_of.
  apply unorm_nonnil.
Qed.

Lemma string_of_uint_nonempty (d : Decimal.uint) :
  d <> Decimal.Nil -> NilEmpty.string_of_uint d <> "".
Proof. destruct d; simpl; congruence. Qed.

Lemma is_digit_not_comma (c : ascii) : is_digit c = true -> Ascii.eqb c "," = false.
Proof.
  intros H. apply Ascii.eqb_neq. intros ->. discriminate H.
Qed.

Lemma group_digits_cons (c : ascii) (s : string) :
  group_digits (String c s) = String c (group_tail s).
Proof. reflexivity. Qed.

Lemma group_tail_rest (s : string) :
  (String.length s mod 3 <> 0)%nat -> group_tail s = group_digits s.
Proof.
  intros H. unfold group_tail.
  apply Nat.eqb_neq in H. rewrite H. now rewrite andb_false_r.
Qed.

Lemma remove_commas_group_digits (s : string) :
  all_digits s = true -> remove_commas (group_digits s) = s.
Proof.
  induction s as [|c s IH]; simpl; [reflexivity|].
  intros H. apply andb_true_iff in H as [Hc Hs].
  rewrite (is_digit_not_comma c Hc).
  destruct (_ && _); simpl; now rewrite IH.
Qed.

Lemma group_tail_multiple (k : nat) :
  forall s, String.length s = (3 * k)%nat -> all_digits s = true ->
            comma_groups (group_tail s).
Proof.
  induction k as [|k IH]; intros s Hlen Hd.
  - destruct s; [constructor | discriminate].
  - destruct s as [|a [|b [|c s]]]; simpl in Hlen; try lia.
    simpl in Hd. repeat (apply andb_true_iff in Hd as [? Hd]).
    assert (Hs : String.length s = (3 * k)%nat) by lia.
    assert (M3 : (String.length (String a (String b (String c s))) mod 3 = 0)%nat).
    { simpl String.length. rewrite Hs.
      replace (S (S (S (3 * k)))) with (0 + (k + 1) * 3)%nat by lia.
      now rewrite Nat.Div0.mod_add. }
    assert (M2 : (String.length (String b (String c s)) mod 3 <> 0)%nat).
    { simpl String.length. rewrite Hs.
      replace (S (S (3 * k))) with (2 + k * 3)%nat by lia.
      rewrite Nat.Div0.mod_add. discriminate. }
    assert (M1 : (String.length (String c s) mod 3 <> 0)%nat).
    { simpl String.length. rewrite Hs.
      replace (S (3 * k)) with (1 + k * 3)%nat by lia.
      rewrite Nat.Div0.mod_add. discriminate. }
    unfold group_tail at 1. rewrite M3. simpl (0 <? _)%nat. simpl andb.
    rewrite group_digits_cons, (group_tail_rest _ M2).
    rewrite group_digits_cons, (group_tail_rest _ M1).
    rewrite group_digits_cons.
    constructor; auto.
Qed.

Lemma group_digits_grouped (s : string) :
  s <> "" -> all_digits s = true -> thousands_grouped (group_digits s).
Proof.
  intros Hne Hd.
  destruct s as [|a s]; [congruence|]. clear Hne.
  simpl in Hd. apply andb_true_iff in Hd as [Ha Hd].
  pose proof (Nat.div_mod_eq (String.length s) 3) as Hdm.
  pose proof (Nat.mod_upper_bound (String.length s) 3 ltac:(lia)) as Hub.
  remember (String.length s / 3)%nat as k.
  remember (String.length s mod 3)%nat as r.
  rewrite group_digits_cons.
  destruct r as [|[|[|r]]]; try lia.
  - apply grouped_1; auto. apply (group_tail_multiple k); auto. lia.
  - destruct s as [|b s]; [simpl in Hdm; lia|].
    simpl in Hd. apply andb_true_iff in Hd as [Hb Hd].
    rewrite group_tail_rest by (rewrite <- Heqr; discriminate).
    rewrite group_digits_cons.
    apply grouped_2; auto. apply (group_tail_multiple k); auto.
    simpl in Hdm. lia.
  - destruct s as [|b [|c s]]; try (simpl in Hdm; lia).
    simpl in Hd. repeat (apply andb_true_iff in Hd as [? Hd]).
    rewrite group_tail_rest by (rewrite <- Heqr; discriminate).
    rewrite group_digits_cons.
    assert (M1 : (String.length (String c s) mod 3 <> 0)%nat).
    { simpl String.length. simpl String.length in Hdm.
      replace (S (String.length s)) with (1 + k * 3)%nat by lia.
      rewrite Nat.Div0.mod_add. discriminate. }
    rewrite (group_tail_rest _ M1), group_digits_cons.
    apply grouped_3; auto. apply (group_tail_multiple k); auto.
    simpl in Hdm. lia.
Qed.

Example grouped_thousand : thousands_grouped "1,000".
Proof. apply grouped_1; [reflexivity|]. repeat constructor. Qed.

Example ungrouped_thousand : ~ thousands_grouped "1000".
Proof.
  intros H. inversion H as [a s Ha Hs | a b s Ha Hb Hs | a b c s Ha Hb Hc Hs];
    subst; inversion Hs.
Qed.

Example misgrouped_thousand : ~ thousands_grouped "10,00".
Proof.
  intros H. inversion H as [a s Ha Hs | a b s Ha Hb Hs | a b c s Ha Hb Hc Hs];
    subst; try discriminate; inversion Hs.
Qed.

(** ** formatCurrency *)


Lemma formatCurrency_number (n : Z) :
  formatCurrency (VNum n) = "₦" ++ toLocaleString_enUS n.
Proof. reflexivity. Qed.


(** ** filteredData *)

(** C8. A line whose cost type is Summary or Budget is visible exactly when
    both filters are "All"; any other line is visible exactly when each
    filter is "All" or equals the line's type, respectively status.  The
    table shows the visible lines of the list, in order. *)
Theorem visible_spec (filters : Filters.t) (it : item) :
  (costType it = "Summary" \/ costType it = "Budget" ->
   (visible filters it = true <->
    Filters.type filters = "All" /\ Filters.cost filters = "All")) /\
  (~ (costType it = "Summary" \/ costType it = "Budget") ->
   (visible filters it = true <->
    (Filters.type filters = "All" \/ type it = Filters.type filters) /\
    (Filters.cost filters = "All" \/ status it = Filters.cost filters))) /\
  (forall data, filteredData data filters = filter (visible filters) data).
Proof.
  unfold visible. split; [|split; [|reflexivity]].
  - intros Hc.
    assert (E : String.eqb (costType it) "Summary" ||
                String.eqb (costType it) "Budget" = true).
    { apply orb_true_iff. rewrite !String.eqb_eq. exact Hc. }
    rewrite E, andb_true_iff, !String.eqb_eq. reflexivity.
  - intros Hc.
    assert (E : String.eqb (costType it) "Summary" ||
                String.eqb (costType it) "Budget" = false).
    { apply not_true_is_false. rewrite orb_true_iff, !String.eqb_eq. exact Hc. }
    rewrite E. cbv zeta.
    rewrite andb_true_iff, !orb_true_iff, !String.eqb_eq. reflexivity.
Qed.

(** ** handleToggleDone *)

(** C9. Toggling keeps the length and the order of the list; the line at
    each position is the old one, with [done] set to the given value and
    every other field kept when its id is the given id, and identical
    otherwise. *)
Theorem handleToggleDone_frame (id0 : string) (isChecked : bool)
    (prevData : list item) :
  length (handleToggleDone id0 isChecked prevData) = length prevData /\
  forall i it, nth_error prevData i = Some it ->
    exists it', nth_error (handleToggleDone id0 isChecked prevData) i = Some it' /\
      (id it = id0 ->
         done it' = isChecked /\
         id it' = id it /\ type it' = type it /\
         description it' = description it /\ event it' = event it /\
         cost it' = cost it /\ costType it' = costType it /\
         status it' = status it /\ excludeFromSum it' = excludeFromSum it) /\
      (id it <> id0 -> it' = it).
Proof.
  unfold handleToggleDone. split; [apply length_map|].
  intros i it Hi.
  rewrite nth_error_map, Hi. simpl.
  eexists; split; [reflexivity|]. split.
  - intros <-. rewrite String.eqb_refl. simpl. repeat split; reflexivity.
  - intros Hne. apply String.eqb_neq in Hne. now rewrite Hne.
Qed.

(** ** handleExportToCSV *)

Lemma double_quotes_app (s1 s2 : string) :
  double_quotes (s1 ++ s2) = double_quotes s1 ++ double_quotes s2.
Proof.
  induction s1 as [|c s1 IH]; simpl; [reflexivity|].
  destruct (Ascii.eqb c dquote); simpl; now rewrite IH.
Qed.

Lemma single_quotes_double_quotes (s : string) :
  single_quotes (double_quotes s) = s.
Proof.
  induction s as [|c s IH]; [reflexivity|].
  cbn [double_quotes]. destruct (Ascii.eqb c dquote) eqn:E.
  - apply Ascii.eqb_eq in E. subst c.
    cbn [single_quotes]. rewrite Ascii.eqb_refl. now rewrite IH.
  - cbn [single_quotes]. rewrite E. now rewrite IH.
Qed.

Lemma costStr_cases (it : item) :
  (cost it = VStr "N/A" -> costStr it = "N/A") /\
  (forall n, cost it = VNum n -> costStr it = Number_toString n) /\
  (cost it <> VStr "N/A" -> is_number (cost it) = false -> costStr it = "").
Proof.
  unfold costStr. repeat split.
  - now intros ->.
  - now intros n ->.
  - intros Hne Hnum.
    destruct (strict_equal (cost it) (VStr "N/A")) eqn:E.
    + apply strict_equal_eq in E. congruence.
    + destruct (cost it); try reflexivity; discriminate.
Qed.

Lemma notes_cases (it : item) :
  (status it = "Unpriced" -> notes it = "QUOTE NEEDED") /\
  (status it <> "Unpriced" -> costType it = "Summary" ->
   notes it = "SUMMARY LINE") /\
  (status it <> "Unpriced" -> costType it <> "Summary" -> notes it = "").
Proof.
  unfold notes. repeat split.
  - intros ->. reflexivity.
  - intros Hs ->. apply String.eqb_neq in Hs. now rewrite Hs.
  - intros Hs Hc. apply String.eqb_neq in Hs, Hc. now rewrite Hs, Hc.
Qed.

(** C10. In the export, a line that is both Unpriced and of cost type
    Summary carries the note "QUOTE NEEDED".  For the line at position [i]
    of the exported list, the text handed to the clipboard is the header
    line, the rows of the [i] lines before it, the row of the line itself
    and the rows of the lines after it, joined by newlines; the row of the
    line itself is its first seven fields followed by the note, each in
    double quotes and joined by commas. *)
Theorem notes_unpriced_before_summary (data : list item) (i : nat) (it : item) :
  nth_error data i = Some it ->
  status it = "Unpriced" -> costType it = "Summary" ->
  notes it = "QUOTE NEEDED" /\
  nth_error (row_fields it) 7 = Some "QUOTE NEEDED" /\
  length (csvRows (firstn i data)) = i /\
  handleExportToCSV data =
    String.concat newline
      (String.concat "," headers ::
       csvRows (firstn i data) ++
       String.concat ","
         (map quoted
            [ if done it then "YES" else "NO"; id it;
              double_quotes (description it); event it; type it;
              costType it; costStr it ] ++
          [quoted "QUOTE NEEDED"]) ::
       csvRows (skipn (S i) data))%list.
Proof.
  intros Hi Hs Hc.
  assert (Hn : notes it = "QUOTE NEEDED") by (unfold notes; now rewrite Hs).
  split; [exact Hn|]. split; [simpl; now rewrite Hn|].
  destruct (nth_error_split data i Hi) as (l1 & l2 & -> & <-).
  rewrite firstn_app, Nat.sub_diag, firstn_all, List.app_nil_r.
  split; [unfold csvRows; now rewrite length_map|].
  replace (skipn (S (length l1)) (l1 ++ it :: l2)%list) with l2.
  - unfold handleExportToCSV, csvRows. rewrite map_app. cbn [map].
    unfold csvRow at 2, row_fields. now rewrite Hn.
  - change (it :: l2)%list with ([it] ++ l2)%list. rewrite app_assoc.
    replace (S (length l1)) with (length (l1 ++ [it])%list)
      by (rewrite length_app; simpl; lia).
    now rewrite skipn_app, Nat.sub_diag, skipn_all.
Qed.

Lemma notes_unpriced_before_summary_witness :
  handleExportToCSV
    [ mkItem "1.1" "Venue" "Hall" "Opening" (VNum 5) "Fixed" "Received" false true;
      mkItem "9.1" "Cost Projection" "Venue" "Finale" (VStr "N/A")
             "Summary" "Unpriced" true false ] =
  String.concat newline
    [ "Completed,ID,Description,Event Phase,Type,Cost Type,Projected Cost (₦),Notes";
      String.concat ","
        (map quoted ["YES"; "1.1"; "Hall"; "Opening"; "Venue"; "Fixed"; "5"; ""]);
      String.concat ","
        (map quoted ["NO"; "9.1"; "Venue"; "Finale"; "Cost Projection"; "Summary";
                     "N/A"; "QUOTE NEEDED"]) ].
Proof.
  exact (proj2 (proj2 (proj2
    (notes_unpriced_before_summary
       [ mkItem "1.1" "Venue" "Hall" "Opening" (VNum 5) "Fixed" "Received" false true;
         mkItem "9.1" "Cost Projection" "Venue" "Finale" (VStr "N/A")
                "Summary" "Unpriced" true false ]
       1%nat
       (mkItem "9.1" "Cost Projection" "Venue" "Finale" (VStr "N/A")
               "Summary" "Unpriced" true false)
       eq_refl eq_refl eq_refl)))).
Defined.

(** C7 as the specification words it does not hold of the export: the seventh column is not labelled "Projected Cost", the
    header labels are not wrapped in double quotes, and a Summary line that
    is Unpriced is not noted "SUMMARY LINE". *)
Lemma export_differs :
  nth_error headers 6 <> Some "Projected Cost" /\
  handleExportToCSV [] <>
    "Completed,ID,Description,Event Phase,Type,Cost Type,Projected Cost,Notes" /\
  prefix (String dquote EmptyString) (handleExportToCSV []) = false /\
  notes (mkItem "9.1" "Cost Projection" "Venue" "Finale" (VStr "N/A")
                "Summary" "Unpriced" true false) <> "SUMMARY LINE".
Proof.
  split; [|split; [|split]].
  - intros H. injection H as H. apply String.eqb_eq in H. discriminate H.
  - intros H. apply String.eqb_eq in H. discriminate H.
  - reflexivity.
  - intros H. apply String.eqb_eq in H. discriminate H.
Qed.

(** C7, amended.  The export is the header line
    [Completed,ID,Description,Event Phase,Type,Cost Type,Projected Cost (₦),Notes]
    followed by one row per line of the whole list, in order, joined by
    newlines.  A row is eight fields, each wrapped in double quotes, joined
    by commas: YES or NO for [done], the id, the description with every
    double quote doubled, the event, the type, the cost type, the cost
    ("N/A", the decimal numeral of a number, or empty) and the note
    ("QUOTE NEEDED" when Unpriced, otherwise "SUMMARY LINE" when the cost
    type is Summary, otherwise empty). *)
Theorem handleExportToCSV_format (data : list item) :
  handleExportToCSV data =
    String.concat newline
      ("Completed,ID,Description,Event Phase,Type,Cost Type,Projected Cost (₦),Notes"
       :: csvRows data) /\
  length headers = 8%nat /\
  length (csvRows data) = length data /\
  (forall i it, nth_error data i = Some it ->
     nth_error (csvRows data) i = Some (csvRow it)) /\
  (forall it, exists completed escaped costField note,
     csvRow it =
       String.concat ","
         (map quoted [completed; id it; escaped; event it; type it;
                      costType it; costField; note]) /\
     (forall f, quoted f = String dquote EmptyString ++ f ++ String dquote EmptyString) /\
     completed = (if done it then "YES" else "NO") /\
     escaped = double_quotes (description it) /\
     single_quotes escaped = description it /\
     (cost it = VStr "N/A" -> costField = "N/A") /\
     (forall n, cost it = VNum n -> costField = Number_toString n) /\
     (cost it <> VStr "N/A" -> is_number (cost it) = false -> costField = "") /\
     (status it = "Unpriced" -> note = "QUOTE NEEDED") /\
     (status it <> "Unpriced" -> costType it = "Summary" ->
      note = "SUMMARY LINE") /\
     (status it <> "Unpriced" -> costType it <> "Summary" -> note = "")) /\
  (forall s1 s2, double_quotes (s1 ++ s2) = double_quotes s1 ++ double_quotes s2) /\
  double_quotes (String dquote EmptyString) =
    String dquote (String dquote EmptyString) /\
  (forall c, c <> dquote ->
     double_quotes (String c EmptyString) = String c EmptyString).
Proof.
  split; [reflexivity|]. split; [reflexivity|].
  split; [apply length_map|]. split.
  { intros i it Hi. unfold csvRows. now rewrite nth_error_map, Hi. }
  split.
  { intros it.
    exists (if done it then "YES" else "NO"), (double_quotes (description it)),
           (costStr it), (notes it).
    destruct (costStr_cases it) as (C1 & C2 & C3).
    destruct (notes_cases it) as (N1 & N2 & N3).
    repeat split; auto using single_quotes_double_quotes. }
  split; [apply double_quotes_app|]. split; [reflexivity|].
  intros c Hc. simpl. apply Ascii.eqb_neq in Hc. now rewrite Hc.
Qed.

(** ** Lists: relative order *)

Section Precedes.
Context {A : Type}.
Implicit Types (l : list A) (x y : A).

Lemma precedes_in l x y : precedes l x y -> In x l /\ In y l.
Proof.
  induction l as [|z l IH]; simpl; [tauto|].
  intros [[-> H] | H]; [tauto | apply IH in H; tauto].
Qed.

Lemma precedes_app l1 l2 x y :
  precedes (l1 ++ l2) x y <->
  precedes l1 x y \/ (In x l1 /\ In y l2) \/ precedes l2 x y.
Proof.
  induction l1 as [|z l1 IH]; simpl.
  - tauto.
  - rewrite IH, in_app_iff. tauto.
Qed.

Lemma precedes_nth l i j x y :
  (i < j)%nat -> nth_error l i = Some x -> nth_error l j = Some y ->
  precedes l x y.
Proof.
  revert i j; induction l as [|z l IH]; intros i j Hij Hi Hj.
  - now destruct i.
  - destruct j as [|j]; [lia|]. simpl in Hj.
    destruct i as [|i]; simpl in Hi.
    + injection Hi as ->. left. split; [reflexivity|].
      eapply nth_error_In; eauto.
    + right. apply (IH i j); auto. lia.
Qed.

Lemma precedes_filter (f : A -> bool) l x y :
  precedes (filter f l) x y -> precedes l x y.
Proof.
  induction l as [|z l IH]; simpl; [tauto|].
  destruct (f z); simpl.
  - intros [[-> H] | H]; [left | right; auto].
    apply filter_In in H. tauto.
  - intros H. right. auto.
Qed.

Lemma in_firstn (n : nat) l x : In x (firstn n l) -> In x l.
Proof.
  intros H. rewrite <- (firstn_skipn n l). apply in_or_app. now left.
Qed.

Lemma precedes_firstn (n : nat) l x y :
  precedes (firstn n l) x y -> precedes l x y.
Proof.
  revert n; induction l as [|z l IH]; intros [|n]; simpl; try tauto.
  intros [[-> H] | H]; [left | right; eauto].
  split; [reflexivity|]. eapply in_firstn; eauto.
Qed.

Lemma precedes_map {B : Type} (f : A -> B) l (u v : B) :
  precedes (map f l) u v ->
  exists x y, precedes l x y /\ f x = u /\ f y = v.
Proof.
  induction l as [|z l IH]; simpl; [tauto|].
  intros [[<- H] | H].
  - apply in_map_iff in H as (y & <- & Hy). exists z, y. tauto.
  - destruct (IH H) as (x & y & Hp & Hx & Hy). exists x, y. tauto.
Qed.

Lemma precedes_map_intro {B : Type} (f : A -> B) l x y :
  precedes l x y -> precedes (map f l) (f x) (f y).
Proof.
  induction l as [|z l IH]; simpl; [tauto|].
  intros [[-> H] | H]; [left | right; auto].
  split; [reflexivity | now apply in_map].
Qed.

Lemma precedes_NoDup l x y : NoDup l -> precedes l x y -> x <> y.
Proof.
  induction l as [|z l IH]; simpl; [tauto|].
  intros Hnd. inversion Hnd as [|? ? Hz Hl]; subst.
  intros [[-> H] | H]; [congruence | auto].
Qed.
End Precedes.

(** ** Array.prototype.sort *)

Section SortByKey.
Context {A : Type} (key : A -> Z).

(** The comparator [(a, b) => key(b) - key(a)], and the order it sorts by. *)
Local Abbreviation compare := (fun a b : A => key b - key a).
Local Abbreviation ge_key := (fun a b : A => key a >= key b).

Lemma sort_insert_perm (cmp : A -> A -> Z) (x : A) (l : list A) :
  Permutation (x :: l) (sort_insert cmp x l).
Proof.
  induction l as [|y l IH]; simpl; [reflexivity|].
  destruct (cmp x y <=? 0); [reflexivity|].
  rewrite perm_swap. now apply perm_skip.
Qed.

Lemma Array_sort_perm (cmp : A -> A -> Z) (l : list A) :
  Permutation l (Array_sort cmp l).
Proof.
  induction l as [|x l IH]; simpl; [reflexivity|].
  rewrite <- sort_insert_perm. now apply perm_skip.
Qed.

Lemma sort_insert_sorted (x : A) (l : list A) :
  StronglySorted ge_key l -> StronglySorted ge_key (sort_insert compare x l).
Proof.
  induction 1 as [|y l Hl IH Hy]; simpl.
  - repeat constructor.
  - destruct (Z.leb_spec (key y - key x) 0) as [Hle|Hgt].
    + constructor; [constructor; auto|].
      constructor; [lia|].
      eapply Forall_impl; [|exact Hy]. simpl. intros; lia.
    + constructor; [exact IH|].
      eapply Permutation_Forall; [apply sort_insert_perm|].
      constructor; [lia | exact Hy].
Qed.

Lemma Array_sort_sorted (l : list A) :
  StronglySorted ge_key (Array_sort compare l).
Proof.
  induction l as [|x l IH]; simpl; [constructor|].
  now apply sort_insert_sorted.
Qed.

Lemma sort_insert_precedes (x : A) (l : list A) (a b : A) :
  precedes (sort_insert compare x l) a b ->
  (a = x /\ In b l) \/ precedes l a b \/ (b = x /\ In a l /\ key a > key x).
Proof.
  induction l as [|y l IH]; simpl.
  - tauto.
  - destruct (Z.leb_spec (key y - key x) 0) as [Hle|Hgt].
    + simpl. intros [[-> H] | H]; [left | right; left]; tauto.
    + simpl. intros [[-> H] | H].
      * apply (Permutation_in _ (Permutation_sym (sort_insert_perm compare x l))) in H.
        destruct H as [<- | H].
        -- right; right. split; [reflexivity|]. split; [now left | lia].
        -- right; left; left. tauto.
      * destruct (IH H) as [[-> Hb] | [Hp | (-> & Ha & Hk)]].
        -- left. tauto.
        -- right; left; right. exact Hp.
        -- right; right. tauto.
Qed.

(** Stability: entries of equal key keep their relative order. *)
Lemma Array_sort_stable (l : list A) (a b : A) :
  precedes (Array_sort compare l) a b -> key a = key b -> precedes l a b.
Proof.
  induction l as [|x l IH]; simpl; [tauto|].
  intros H Hk. apply sort_insert_precedes in H.
  destruct H as [[-> Hb] | [Hp | (-> & Ha & Hgt)]].
  - left. split; [reflexivity|].
    eapply Permutation_in; [symmetry; apply Array_sort_perm | exact Hb].
  - right. auto.
  - lia.
Qed.
End SortByKey.

(** ** Objects *)

Section OwnProperties.
Context {V : Type}.
Implicit Types (o : jsobject V) (k : string) (v : V).

Lemma getOwn_None k o : getOwn k o = None <-> ~ In k (map fst o).
Proof.
  induction o as [|[k' v'] o IH]; simpl; [tauto|].
  destruct (String.eqb_spec k k') as [->|Hne].
  - split; [discriminate | tauto].
  - rewrite IH. split; [intros H [E|I]; congruence | tauto].
Qed.

Lemma getOwn_setOwn k v o : getOwn k (setOwn k v o) = Some v.
Proof.
  induction o as [|[k' v'] o IH]; simpl.
  - now rewrite String.eqb_refl.
  - destruct (String.eqb k k') eqn:E; simpl; now rewrite E.
Qed.

Lemma setOwn_new k v o : getOwn k o = None -> setOwn k v o = (o ++ [(k, v)])%list.
Proof.
  induction o as [|[k' v'] o IH]; simpl; [reflexivity|].
  destruct (String.eqb k k'); [discriminate|].
  intros H. now rewrite IH.
Qed.

Lemma setOwn_keys k v v0 o :
  getOwn k o = Some v0 -> map fst (setOwn k v o) = map fst o.
Proof.
  induction o as [|[k' v'] o IH]; simpl; [discriminate|].
  destruct (String.eqb k k'); simpl; [reflexivity|].
  intros H. now rewrite IH.
Qed.

Lemma setOwn_setOwn_keys k v v' o :
  map fst (setOwn k v (setOwn k v' o)) = map fst (setOwn k v' o).
Proof. apply (setOwn_keys k v v'), getOwn_setOwn. Qed.
End OwnProperties.

(** ** calculateMetrics: the loop *)

(** An iteration throws exactly when the phase names a member of
    [Object.prototype] and has no bucket. *)
Lemma visit_throws (st : locals) (it : item) :
  getOwn (event it) (l_costsByType st) = None ->
  inherited (event it) = true ->
  visit st it = Throw TypeError.
Proof.
  intros Hown Hinh. unfold visit, add_to_total, push_item, get.
  rewrite Hown, Hinh. destruct (confirmed_cost it); simpl;
    rewrite Hown; simpl; rewrite ?Hown; reflexivity.
Qed.

Lemma visit_returns (st : locals) (it : item) :
  (getOwn (event it) (l_costsByType st) = None -> inherited (event it) = false) ->
  exists st',
    visit st it = Ok st' /\
    l_totalConfirmedBudget st' = l_totalConfirmedBudget st + counted it /\
    l_unpricedItems st' =
      (l_unpricedItems st ++ (if is_unpriced it then [it] else []))%list /\
    own_keys st' =
      match getOwn (event it) (l_costsByType st) with
      | Some _ => own_keys st
      | None => (own_keys st ++ [event it])%list
      end.
Proof.
  intros Hinh. unfold visit, add_to_total, push_item, get, counted, own_keys,
    is_unpriced.
  destruct (getOwn (event it) (l_costsByType st)) as [b|] eqn:Hown.
  - destruct (confirmed_cost it) as [c|]; simpl.
    + rewrite Hown. simpl. rewrite getOwn_setOwn. simpl.
      eexists; split; [reflexivity|]. simpl.
      rewrite setOwn_setOwn_keys, (setOwn_keys _ _ b) by assumption.
      repeat split. destruct (String.eqb _ _); [reflexivity | now rewrite List.app_nil_r].
    + rewrite Hown. simpl.
      eexists; split; [reflexivity|]. simpl.
      rewrite (setOwn_keys _ _ b) by assumption.
      repeat split; try lia.
      destruct (String.eqb _ _); [reflexivity | now rewrite List.app_nil_r].
  - rewrite (Hinh eq_refl).
    destruct (confirmed_cost it) as [c|]; simpl.
    + rewrite getOwn_setOwn. simpl. rewrite getOwn_setOwn. simpl.
      eexists; split; [reflexivity|]. simpl.
      rewrite !setOwn_setOwn_keys, (setOwn_new _ _ _ Hown), map_app.
      repeat split. destruct (String.eqb _ _); [reflexivity | now rewrite List.app_nil_r].
    + rewrite getOwn_setOwn. simpl.
      eexists; split; [reflexivity|]. simpl.
      rewrite !setOwn_setOwn_keys, (setOwn_new _ _ _ Hown), map_app.
      repeat split; try lia.
      destruct (String.eqb _ _); [reflexivity | now rewrite List.app_nil_r].
Qed.

Lemma visit_cases (st : locals) (it : item) :
  (visit st it = Throw TypeError /\
   getOwn (event it) (l_costsByType st) = None /\ inherited (event it) = true) \/
  (exists st',
    visit st it = Ok st' /\
    (getOwn (event it) (l_costsByType st) = None -> inherited (event it) = false) /\
    l_totalConfirmedBudget st' = l_totalConfirmedBudget st + counted it /\
    l_unpricedItems st' =
      (l_unpricedItems st ++ (if is_unpriced it then [it] else []))%list /\
    own_keys st' =
      match getOwn (event it) (l_costsByType st) with
      | Some _ => own_keys st
      | None => (own_keys st ++ [event it])%list
      end).
Proof.
  destruct (getOwn (event it) (l_costsByType st)) as [b|] eqn:Hown.
  - right. destruct (visit_returns st it) as (st' & H).
    + rewrite Hown. discriminate.
    + rewrite Hown in H. exists st'. intuition discriminate.
  - destruct (inherited (event it)) eqn:Hinh.
    + left. auto using visit_throws.
    + right. destruct (visit_returns st it) as (st' & H).
      * auto.
      * rewrite Hown in H. exists st'. intuition.
Qed.

Lemma confirmed_sum_cons (it : item) (data : list item) :
  confirmed_sum (it :: data) = counted it + confirmed_sum data.
Proof.
  unfold confirmed_sum, counted, confirmed_cost. cbn [filter].
  destruct (cost it) eqn:Ec; destruct (excludeFromSum it); cbn;
    rewrite ?Ec; reflexivity.
Qed.

Lemma forEach_visit_ok (data : list item) :
  forall st st', forEach visit data st = Ok st' ->
    l_totalConfirmedBudget st' = l_totalConfirmedBudget st + confirmed_sum data /\
    l_unpricedItems st' = (l_unpricedItems st ++ filter is_unpriced data)%list.
Proof.
  induction data as [|it data IH]; simpl; intros st st' H.
  - injection H as <-. rewrite List.app_nil_r. unfold confirmed_sum. simpl.
    split; [lia | reflexivity].
  - destruct (visit_cases st it) as [(E & _) | (st1 & E & _ & Ht & Hu & _)];
      rewrite E in H; simpl in H; [discriminate|].
    destruct (IH _ _ H) as [Ht' Hu'].
    rewrite Ht', Hu', Ht, Hu, confirmed_sum_cons. split; [lia|].
    rewrite <- app_assoc. now destruct (is_unpriced it).
Qed.

Lemma visit_keys_safe (st st' : locals) (it : item) :
  visit st it = Ok st' -> keys_safe st -> keys_safe st'.
Proof.
  intros E Hs.
  destruct (visit_cases st it) as [(E' & _) | (st1 & E' & Hi & _ & _ & Hk)];
    rewrite E' in E; [discriminate|].
  injection E as <-. unfold keys_safe. rewrite Hk.
  destruct (getOwn (event it) (l_costsByType st)); [exact Hs|].
  intros k Hin. apply in_app_or in Hin as [Hin | [<- | []]]; auto.
Qed.

Lemma forEach_visit_returns (data : list item) :
  forall st, Forall (fun it => inherited (event it) = false) data ->
             exists st', forEach visit data st = Ok st'.
Proof.
  induction data as [|it data IH]; simpl; intros st Hd.
  - now exists st.
  - inversion Hd as [|? ? Hit Hd']; subst.
    destruct (visit_returns st it) as (st1 & E & _); [auto|].
    rewrite E. simpl. apply IH, Hd'.
Qed.

Lemma forEach_visit_throws (data : list item) :
  forall st, keys_safe st ->
             Exists (fun it => inherited (event it) = true) data ->
             forEach visit data st = Throw TypeError.
Proof.
  induction data as [|it data IH]; simpl; intros st Hs Hd.
  - inversion Hd.
  - destruct (visit_cases st it) as [(E & _) | (st1 & E & Hi & _)]; rewrite E;
      simpl; [reflexivity|].
    apply IH; [eapply visit_keys_safe; eauto|].
    inversion Hd as [? ? Hit | ? ? Hd']; subst; [|exact Hd'].
    exfalso.
    destruct (getOwn (event it) (l_costsByType st)) eqn:Hown.
    + assert (Hin : In (event it) (own_keys st)).
      { unfold own_keys. destruct (in_dec string_dec (event it)
          (map fst (l_costsByType st))) as [|Hn]; [assumption|].
        apply getOwn_None in Hn. congruence. }
      apply Hs in Hin. congruence.
    + rewrite (Hi eq_refl) in Hit. discriminate.
Qed.

(** ** calculateMetrics: when it returns, and what *)

(** The scenario of the specification: a total of 800, one unpriced line,
    and the single grouping A, the phase "Budget Summary" being left out. *)
Example scenario_metrics :
  calculateMetrics scenario =
  Ok (mkMetrics 800
        [mkItem "2" "Procurement" "b" "A" (VNum 300) "CAPEX" "Unpriced" false false]
        [Grouping.mk "A" 800]).
Proof. reflexivity. Qed.

Lemma calculateMetrics_returns (data : list item) :
  Forall (fun it => inherited (event it) = false) data ->
  exists m, calculateMetrics data = Ok m.
Proof.
  intros Hd. unfold calculateMetrics.
  destruct (forEach_visit_returns data (mkLocals 0 [] []) Hd) as (st & E).
  rewrite E. simpl. eauto.
Qed.

Lemma calculateMetrics_throws (data : list item) :
  Exists (fun it => inherited (event it) = true) data ->
  calculateMetrics data = Throw TypeError.
Proof.
  intros Hd. unfold calculateMetrics.
  rewrite forEach_visit_throws; auto.
  intros k [].
Qed.

Lemma calculateMetrics_total (data : list item) (m : metrics) :
  calculateMetrics data = Ok m ->
  totalConfirmedBudget m = confirmed_sum data.
Proof.
  unfold calculateMetrics. intros H.
  destruct (forEach visit data _) as [st|] eqn:E; simpl in H; [|discriminate].
  injection H as <-. simpl.
  apply forEach_visit_ok in E as [E _]. simpl in E. lia.
Qed.

Lemma calculateMetrics_unpriced (data : list item) (m : metrics) :
  calculateMetrics data = Ok m ->
  unpricedItems m = filter is_unpriced data.
Proof.
  unfold calculateMetrics. intros H.
  destruct (forEach visit data _) as [st|] eqn:E; simpl in H; [|discriminate].
  injection H as <-. simpl.
  now apply forEach_visit_ok in E as [_ E].
Qed.

(** C1.  On a list none of whose phases is named like a member of
    [Object.prototype], [calculateMetrics] returns, and the confirmed budget
    it returns is the sum of the costs that are numbers on lines not
    excluded from the sum; lines that are excluded or whose cost is not a
    number add nothing.  On any other list it throws a [TypeError] and
    returns no total: so on the single line below, whose cost is 8000. *)
Theorem totalConfirmedBudget_spec :
  (forall data,
     Forall (fun it => inherited (event it) = false) data ->
     exists m, calculateMetrics data = Ok m /\
               totalConfirmedBudget m = confirmed_sum data) /\
  (forall data,
     Exists (fun it => inherited (event it) = true) data ->
     calculateMetrics data = Throw TypeError) /\
  confirmed_sum [priced "1.1" "constructor" 8000] = 8000 /\
  calculateMetrics [priced "1.1" "constructor" 8000] = Throw TypeError.
Proof.
  split; [|split; [|split]].
  - intros data Hd. destruct (calculateMetrics_returns data Hd) as (m & E).
    exists m. split; [exact E | now apply calculateMetrics_total].
  - apply calculateMetrics_throws.
  - reflexivity.
  - reflexivity.
Qed.

(** C2.  On a list none of whose phases is named like a member of
    [Object.prototype], [calculateMetrics] returns, and the unpriced items
    it returns are the lines of status "Unpriced", in the order of the list,
    and no others.  On any other list it throws a [TypeError] and returns
    none: so on the single unpriced line below. *)
Theorem unpricedItems_spec :
  (forall data,
     Forall (fun it => inherited (event it) = false) data ->
     exists m, calculateMetrics data = Ok m /\
               unpricedItems m =
                 filter (fun it => String.eqb (status it) "Unpriced") data) /\
  (forall data,
     Exists (fun it => inherited (event it) = true) data ->
     calculateMetrics data = Throw TypeError) /\
  calculateMetrics
    [mkItem "7.8" "Procurement" "GitHub Repository Setup" "toString"
            (VStr "N/A") "OPEX" "Unpriced" false false]
  = Throw TypeError.
Proof.
  split; [|split].
  - intros data Hd. destruct (calculateMetrics_returns data Hd) as (m & E).
    exists m. split; [exact E | now apply calculateMetrics_unpriced].
  - apply calculateMetrics_throws.
  - reflexivity.
Qed.

(** ** calculateMetrics: the top three groupings *)

Lemma StronglySorted_firstn {A : Type} (R : A -> A -> Prop) (n : nat) (l : list A) :
  StronglySorted R l -> StronglySorted R (firstn n l).
Proof.
  intros H; revert n; induction H as [|x l Hl IH Hx]; intros [|n]; simpl;
    try constructor; auto.
  rewrite Forall_forall in *. intros y Hy. apply Hx. eapply in_firstn; eauto.
Qed.

Lemma StronglySorted_map {A B : Type} (R : A -> A -> Prop) (R' : B -> B -> Prop)
    (f : A -> B) (l : list A) :
  (forall a b, R a b -> R' (f a) (f b)) ->
  StronglySorted R l -> StronglySorted R' (map f l).
Proof.
  intros HR; induction 1 as [|x l Hl IH Hx]; simpl; constructor; auto.
  rewrite Forall_forall in *. intros y Hy.
  apply in_map_iff in Hy as (a & <- & Ha). auto.
Qed.

Lemma sortedCosts_qualify (o : jsobject Bucket.t) (e : string * Bucket.t) :
  In e (sortedCosts o) -> In e (Object_entries o) /\ qualifies e = true.
Proof.
  unfold sortedCosts. intros H. apply in_firstn in H.
  apply (Permutation_in _ (Permutation_sym (Array_sort_perm _ _))) in H.
  now apply filter_In in H.
Qed.

Lemma sortedCosts_descending (o : jsobject Bucket.t) :
  StronglySorted (fun a b => Bucket.total (snd a) >= Bucket.total (snd b))
                 (sortedCosts o).
Proof.
  unfold sortedCosts. apply StronglySorted_firstn.
  apply (Array_sort_sorted (fun e => Bucket.total (snd e))).
Qed.

Lemma calculateMetrics_top3 (data : list item) (m : metrics) :
  calculateMetrics data = Ok m ->
  exists st, forEach visit data (mkLocals 0 [] []) = Ok st /\
             top3CostGroupings m = map to_grouping (sortedCosts (l_costsByType st)).
Proof.
  unfold calculateMetrics. intros H.
  destruct (forEach visit data _) as [st|] eqn:E; simpl in H; [|discriminate].
  injection H as <-. now exists st.
Qed.

(** C3. Whatever [calculateMetrics] returns, its top groupings hold no phase
    whose name contains "Summary" or "Budget" and no total that is zero or
    negative, are at most three, and come by decreasing total. *)
Theorem top3CostGroupings_spec (data : list item) (m : metrics) :
  calculateMetrics data = Ok m ->
  (forall g, In g (top3CostGroupings m) ->
     ~ contains (Grouping.phase g) "Summary" /\
     ~ contains (Grouping.phase g) "Budget" /\
     ~ Grouping.total g <= 0) /\
  (length (top3CostGroupings m) <= 3)%nat /\
  descending (top3CostGroupings m).
Proof.
  intros H. destruct (calculateMetrics_top3 data m H) as (st & _ & ->).
  split; [|split].
  - intros g Hg. apply in_map_iff in Hg as (e & <- & He).
    apply sortedCosts_qualify in He as [_ Hq].
    unfold qualifies in Hq.
    apply andb_true_iff in Hq as [Hq Ht]. apply andb_true_iff in Hq as [Hs Hb].
    apply negb_true_iff in Hs, Hb. apply Z.ltb_lt in Ht.
    simpl. rewrite <- !includes_spec, Hs, Hb.
    repeat split; try discriminate. lia.
  - rewrite length_map. unfold sortedCosts. apply firstn_le_length.
  - unfold descending.
    eapply StronglySorted_map; [|apply sortedCosts_descending].
    auto.
Qed.

Lemma top3CostGroupings_spec_witness :
  exists m, calculateMetrics scenario = Ok m /\
            top3CostGroupings m = [Grouping.mk "A" 800] /\
            descending (top3CostGroupings m).
Proof.
  eexists. split; [reflexivity|]. split; [reflexivity|].
  apply (top3CostGroupings_spec scenario). reflexivity.
Defined.

(** ** Object.entries: the order of the keys *)

Lemma array_index_canonical (k : string) (n : N) :
  array_index k = Some n -> k = NilEmpty.string_of_uint (N.to_uint n).
Proof.
  unfold array_index. destruct (NilEmpty.uint_of_string k) as [d|]; [|discriminate].
  destruct (String.eqb _ k) eqn:E; simpl; [|discriminate].
  destruct (_ <=? _)%N; [|discriminate].
  intros H; injection H as <-. apply String.eqb_eq in E. now symmetry.
Qed.

Lemma array_index_inj (k1 k2 : string) (n : N) :
  array_index k1 = Some n -> array_index k2 = Some n -> k1 = k2.
Proof.
  intros H1 H2. apply array_index_canonical in H1, H2. congruence.
Qed.

Lemma StronglySorted_precedes {A : Type} (R : A -> A -> Prop) (l : list A) (x y : A) :
  StronglySorted R l -> precedes l x y -> R x y.
Proof.
  induction 1 as [|z l Hl IH Hz]; simpl; [tauto|].
  intros [[-> Hy] | Hp]; [|auto].
  rewrite Forall_forall in Hz. auto.
Qed.

Section SortByIndex.
Context {V : Type}.
Implicit Types (e : string * V) (l : list (string * V)).

Local Abbreviation le_index :=
  (fun e1 e2 : string * V => (index_of_key (fst e1) <= index_of_key (fst e2))%N).

Lemma insert_by_index_perm e l : Permutation (e :: l) (insert_by_index e l).
Proof.
  induction l as [|e' l IH]; simpl; [reflexivity|].
  destruct (_ <=? _)%N; [reflexivity|].
  rewrite perm_swap. now apply perm_skip.
Qed.

Lemma sort_by_index_perm l : Permutation l (sort_by_index l).
Proof.
  induction l as [|e l IH]; simpl; [reflexivity|].
  rewrite <- insert_by_index_perm. now apply perm_skip.
Qed.

Lemma insert_by_index_sorted e l :
  StronglySorted le_index l -> StronglySorted le_index (insert_by_index e l).
Proof.
  induction 1 as [|e' l Hl IH He']; simpl.
  - repeat constructor.
  - destruct (N.leb_spec (index_of_key (fst e)) (index_of_key (fst e'))) as [Hle|Hgt].
    + constructor; [constructor; auto|].
      constructor; [exact Hle|].
      eapply Forall_impl; [|exact He']. simpl. intros; lia.
    + constructor; [exact IH|].
      eapply Permutation_Forall; [apply insert_by_index_perm|].
      constructor; [lia | exact He'].
Qed.

Lemma sort_by_index_sorted l : StronglySorted le_index (sort_by_index l).
Proof.
  induction l as [|e l IH]; simpl; [constructor|].
  now apply insert_by_index_sorted.
Qed.
End SortByIndex.

Lemma Object_entries_perm {V : Type} (o : jsobject V) :
  Permutation (Object_entries o) o.
Proof.
  unfold Object_entries. rewrite <- sort_by_index_perm.
  induction o as [|e o IH]; simpl; [reflexivity|].
  destruct (is_array_index (fst e)); simpl.
  - now apply perm_skip.
  - rewrite <- Permutation_middle. now apply perm_skip.
Qed.

Lemma Object_entries_order {V : Type} (o : jsobject V) (events : list string)
    (e1 e2 : string * V) :
  NoDup (map fst o) ->
  (forall k1 k2, precedes (map fst o) k1 k2 ->
                 (first_index k1 events < first_index k2 events)%nat) ->
  precedes (Object_entries o) e1 e2 ->
  listed_before events (fst e1) (fst e2).
Proof.
  intros Hnd Hord Hp.
  assert (Hne : fst e1 <> fst e2).
  { apply (precedes_NoDup (map fst (Object_entries o))).
    - eapply Permutation_NoDup; [|exact Hnd].
      apply Permutation_map. symmetry. apply Object_entries_perm.
    - now apply precedes_map_intro. }
  unfold Object_entries in Hp. apply precedes_app in Hp.
  unfold listed_before.
  destruct Hp as [Hp | [[H1 H2] | Hp]].
  - pose proof (StronglySorted_precedes _ _ _ _ (sort_by_index_sorted _) Hp) as Hle.
    apply precedes_in in Hp as [H1 H2].
    apply (Permutation_in _ (Permutation_sym (sort_by_index_perm _))) in H1, H2.
    apply filter_In in H1 as [_ H1]. apply filter_In in H2 as [_ H2].
    unfold is_array_index in H1, H2. unfold index_of_key in Hle. simpl in Hle.
    destruct (array_index (fst e1)) as [n1|] eqn:E1; [|discriminate].
    destruct (array_index (fst e2)) as [n2|] eqn:E2; [|discriminate].
    assert (n1 <> n2) by (intros ->; eauto using array_index_inj).
    lia.
  - apply (Permutation_in _ (Permutation_sym (sort_by_index_perm _))) in H1.
    apply filter_In in H1 as [_ H1]. apply filter_In in H2 as [_ H2].
    unfold is_array_index in H1, H2.
    destruct (array_index (fst e1)); [|discriminate].
    destruct (array_index (fst e2)); [discriminate | exact I].
  - pose proof (precedes_in _ _ _ Hp) as [H1 H2].
    apply filter_In in H1 as [_ H1]. apply filter_In in H2 as [_ H2].
    unfold is_array_index in H1, H2.
    destruct (array_index (fst e1)); [discriminate|].
    destruct (array_index (fst e2)); [discriminate|].
    apply Hord. apply precedes_map_intro. eapply precedes_filter; eauto.
Qed.

(** ** calculateMetrics: the order in which buckets are created *)

Lemma first_index_in (k : string) (l : list string) :
  In k l -> (first_index k l < length l)%nat.
Proof.
  induction l as [|k' l IH]; simpl; [tauto|].
  destruct (String.eqb_spec k k') as [->|Hne]; [lia|].
  intros [E|H]; [congruence | apply IH in H; lia].
Qed.

Lemma first_index_app_in (k : string) (l l' : list string) :
  In k l -> first_index k (l ++ l') = first_index k l.
Proof.
  induction l as [|k' l IH]; simpl; [tauto|].
  destruct (String.eqb_spec k k') as [->|Hne]; [reflexivity|].
  intros [E|H]; [congruence | now rewrite IH].
Qed.

Lemma first_index_app_new (k : string) (l : list string) :
  ~ In k l -> first_index k (l ++ [k]) = length l.
Proof.
  induction l as [|k' l IH]; simpl.
  - now rewrite String.eqb_refl.
  - destruct (String.eqb_spec k k') as [->|Hne]; [tauto|].
    intros H. rewrite IH; tauto.
Qed.

Lemma keys_in_order_visit (seen : list string) (st st' : locals) (it : item) :
  visit st it = Ok st' ->
  keys_in_order seen (own_keys st) ->
  keys_in_order (seen ++ [event it]) (own_keys st').
Proof.
  intros E (Hnd & Hin & Hord).
  destruct (visit_cases st it) as [(E' & _) | (st1 & E' & _ & _ & _ & Hk)];
    rewrite E' in E; [discriminate|].
  injection E as <-. rewrite Hk. clear Hk E'.
  destruct (getOwn (event it) (l_costsByType st)) eqn:Hown.
  - assert (Hev : In (event it) (own_keys st)).
    { destruct (in_dec string_dec (event it) (own_keys st)) as [|Hn]; [assumption|].
      apply getOwn_None in Hn. congruence. }
    split; [exact Hnd|]. split.
    + intros k. rewrite in_app_iff, Hin. simpl.
      split; [tauto|]. intros [H | [<- | []]]; [exact H | now apply Hin].
    + intros k1 k2 Hp. pose proof (precedes_in _ _ _ Hp) as [H1 H2].
      rewrite !first_index_app_in by now apply Hin. auto.
  - apply getOwn_None in Hown. fold (own_keys st) in Hown.
    assert (Hnew : ~ In (event it) seen) by now rewrite <- Hin.
    split; [|split].
    + apply NoDup_app; auto.
      * constructor; [simpl; tauto | constructor].
      * intros k H1 [<- | []]. contradiction.
    + intros k. rewrite !in_app_iff, Hin. reflexivity.
    + intros k1 k2 Hp. apply precedes_app in Hp.
      destruct Hp as [Hp | [[H1 [<- | []]] | [[_ []] | []]]].
      * pose proof (precedes_in _ _ _ Hp) as [H1 H2].
        rewrite !first_index_app_in by now apply Hin. auto.
      * rewrite first_index_app_in by now apply Hin.
        rewrite first_index_app_new by assumption.
        apply first_index_in. now apply Hin.
Qed.

Lemma keys_in_order_forEach (data : list item) :
  forall seen st st',
    forEach visit data st = Ok st' ->
    keys_in_order seen (own_keys st) ->
    keys_in_order (seen ++ map event data) (own_keys st').
Proof.
  induction data as [|it data IH]; simpl; intros seen st st' H Hinv.
  - injection H as <-. now rewrite List.app_nil_r.
  - destruct (visit st it) as [st1|] eqn:E; simpl in H; [|discriminate].
    replace (seen ++ event it :: map event data)%list
      with ((seen ++ [event it]) ++ map event data)%list
      by now rewrite <- app_assoc.
    eapply IH; [exact H|]. eapply keys_in_order_visit; eauto.
Qed.

(** C4 as the specification words it does not hold: the two phases of the
    list below tie at 5, and the one that occurs second, an array index
    smaller than the first, is listed first. *)
Lemma tie_order_not_first_occurrence :
  let data := [priced "1.1" "2025" 5; priced "1.2" "2024" 5] in
  exists m g1 g2,
    calculateMetrics data = Ok m /\
    nth_error (top3CostGroupings m) 0 = Some g1 /\
    nth_error (top3CostGroupings m) 1 = Some g2 /\
    Grouping.total g1 = Grouping.total g2 /\
    (first_index (Grouping.phase g2) (map event data) <
     first_index (Grouping.phase g1) (map event data))%nat.
Proof.
  do 3 eexists. repeat split; try reflexivity. simpl. lia.
Qed.

(** C4, amended.  Whatever [calculateMetrics] returns, two top groupings of
    equal total stand in the order in which the bucket object lists their
    phases: phases that are array indices first, by increasing value, then
    the other phases in the order of their first occurrence in the list. *)
Theorem top3CostGroupings_tie_order (data : list item) (m : metrics)
    (i j : nat) (g1 g2 : Grouping.t) :
  calculateMetrics data = Ok m ->
  (i < j)%nat ->
  nth_error (top3CostGroupings m) i = Some g1 ->
  nth_error (top3CostGroupings m) j = Some g2 ->
  Grouping.total g1 = Grouping.total g2 ->
  listed_before (map event data) (Grouping.phase g1) (Grouping.phase g2) /\
  (array_index (Grouping.phase g1) = None ->
   array_index (Grouping.phase g2) = None ->
   (first_index (Grouping.phase g1) (map event data) <
    first_index (Grouping.phase g2) (map event data))%nat).
Proof.
  intros H Hij H1 H2 Ht.
  destruct (calculateMetrics_top3 data m H) as (st & E & Etop).
  rewrite Etop in H1, H2.
  pose proof (precedes_nth _ _ _ _ _ Hij H1 H2) as Hp.
  apply precedes_map in Hp as (e1 & e2 & Hp & <- & <-).
  simpl in Ht |- *.
  unfold sortedCosts in Hp. apply precedes_firstn in Hp.
  apply (Array_sort_stable (fun e => Bucket.total (snd e))) in Hp; [|exact Ht].
  apply precedes_filter in Hp.
  pose proof (keys_in_order_forEach data [] _ _ E) as (Hnd & _ & Hord).
  { split; [constructor|]. split; [reflexivity | intros ? ? []]. }
  assert (L : listed_before (map event data) (fst e1) (fst e2)).
  { eapply Object_entries_order; eauto. }
  split; [exact L|].
  unfold listed_before in L. intros E1 E2. now rewrite E1, E2 in L.
Qed.

Lemma top3CostGroupings_tie_order_witness :
  listed_before
    (map event [priced "1.1" "Venue" 5; priced "1.2" "Catering" 5])
    "Venue" "Catering".
Proof.
  apply (top3CostGroupings_tie_order
           [priced "1.1" "Venue" 5; priced "1.2" "Catering" 5]
           (mkMetrics 10 [] [Grouping.mk "Venue" 5; Grouping.mk "Catering" 5])
           0 1 (Grouping.mk "Venue" 5) (Grouping.mk "Catering" 5));
    try reflexivity.
  lia.
Defined.

(** ** The store *)

Lemma nth_error_update_eq {A : Type} (n : nat) (x : A) (l : list A) :
  (n < length l)%nat -> nth_error (update n x l) n = Some x.
Proof.
  revert n; induction l as [|y l IH]; intros [|n]; simpl; intros H;
    try lia; [reflexivity|].
  apply IH. lia.
Qed.

Lemma nth_error_update_neq {A : Type} (n m : nat) (x : A) (l : list A) :
  n <> m -> nth_error (update n x l) m = nth_error l m.
Proof.
  revert n m; induction l as [|y l IH]; intros [|n] [|m] H; simpl;
    try reflexivity; try congruence.
  apply IH. congruence.
Qed.

Lemma read_write_eq (l : loc) (c c0 : cell) (h : heap) :
  read l h = Some c0 -> read l (write l c h) = Some c.
Proof.
  unfold read, write. simpl. intros H.
  apply nth_error_update_eq. apply nth_error_Some. congruence.
Qed.

Lemma read_write_neq (l l' : loc) (c : cell) (h : heap) :
  l <> l' -> read l' (write l c h) = read l' h.
Proof. unfold read, write. simpl. apply nth_error_update_neq. Qed.

Lemma extends_refl (h : heap) : extends h h.
Proof. intros l c H. exact H. Qed.

Lemma extends_write (h0 h : heap) (l : loc) (c : cell) :
  extends h0 h -> fresh h0 l -> extends h0 (write l c h).
Proof.
  intros He Hf l' c' H. rewrite read_write_neq; [auto|].
  unfold fresh in Hf. congruence.
Qed.

Lemma read_alloc_old (l : loc) (c c' : cell) (h : heap) :
  read l h = Some c ->
  read l (mkHeap (cells h ++ [c'])%list (foreign_totals h)) = Some c.
Proof.
  unfold read. simpl. intros H. rewrite nth_error_app1; [exact H|].
  apply nth_error_Some. congruence.
Qed.

Lemma read_alloc_new (c : cell) (h : heap) :
  read (length (cells h)) (mkHeap (cells h ++ [c])%list (foreign_totals h)) = Some c.
Proof.
  unfold read. simpl. rewrite nth_error_app2 by lia.
  now rewrite Nat.sub_diag.
Qed.

Lemma read_length_fresh (h0 h : heap) :
  extends h0 h -> fresh h0 (length (cells h)).
Proof.
  intros He. unfold fresh. destruct (read (length (cells h)) h0) eqn:E; [|reflexivity].
  apply He in E. unfold read in E.
  assert (nth_error (cells h) (length (cells h)) <> None) by congruence.
  apply nth_error_Some in H. lia.
Qed.

Lemma items_of_app (h : heap) (refs : list loc) (its : list item) (r : loc) (it : item) :
  items_of h refs = Some its -> read r h = Some (CItem it) ->
  items_of h (refs ++ [r]) = Some (its ++ [it])%list.
Proof.
  revert its; induction refs as [|r' refs IH]; simpl; intros its H Hr.
  - injection H as <-. now rewrite Hr.
  - destruct (read r' h) as [[it'| |]|]; try discriminate.
    destruct (items_of h refs) as [its'|]; [|discriminate].
    injection H as <-. now rewrite (IH its').
Qed.

Lemma items_of_extends (h0 h : heap) (refs : list loc) (its : list item) :
  extends h0 h -> items_of h0 refs = Some its -> items_of h refs = Some its.
Proof.
  intros He. revert its; induction refs as [|r refs IH]; simpl; intros its H.
  - exact H.
  - destruct (read r h0) as [[it| |]|] eqn:E; try discriminate.
    destruct (items_of h0 refs) as [its'|]; [|discriminate].
    rewrite (He _ _ E), (IH its'); auto.
Qed.

(** ** The store against the function *)

Lemma getOwn_in_values {V : Type} (k : string) (v : V) (o : jsobject V) :
  getOwn k o = Some v -> In v (map snd o).
Proof.
  induction o as [|[k' v'] o IH]; simpl; [discriminate|].
  destruct (String.eqb k k'); [intros H; injection H; auto | auto].
Qed.

Section Simulation.
Variable h0 : heap.

Lemma buckets_get (h : heap) (cs : jsobject loc) (co : jsobject Bucket.t)
    (k : string) :
  Forall2 (bucket_at h0 h) cs co ->
  match getOwn k cs, getOwn k co with
  | Some b, Some bk =>
      exists refs, read b h = Some (CBucket (Bucket.total bk) refs) /\
                   items_of h0 refs = Some (Bucket.items bk)
  | None, None => True
  | _, _ => False
  end.
Proof.
  induction 1 as [|[k1 b1] [k2 bk2] cs co (Hk & _ & Hb) _ IH]; simpl; [exact I|].
  simpl in Hk. subst k2. destruct (String.eqb k k1); [exact Hb | exact IH].
Qed.

Lemma buckets_readable (h : heap) (cs : jsobject loc) (co : jsobject Bucket.t)
    (b : loc) :
  Forall2 (bucket_at h0 h) cs co -> In b (map snd cs) ->
  (b < length (cells h))%nat.
Proof.
  induction 1 as [|[k1 b1] [k2 bk2] cs co (_ & _ & refs & Hr & _) _ IH]; simpl;
    [tauto|].
  intros [<- | Hin]; [|auto].
  apply nth_error_Some. unfold read in Hr. simpl in Hr. congruence.
Qed.

Lemma buckets_same_cells (h h' : heap) (cs : jsobject loc) (co : jsobject Bucket.t) :
  (forall b, In b (map snd cs) -> read b h' = read b h) ->
  Forall2 (bucket_at h0 h) cs co -> Forall2 (bucket_at h0 h') cs co.
Proof.
  intros Hsame H. induction H as [|[k1 b1] [k2 bk2] cs co (Hk & Hf & Hb) _ IH];
    constructor.
  - split; [exact Hk|]. split; [exact Hf|]. simpl in *. rewrite Hsame; auto.
  - apply IH. intros b Hb'. apply Hsame. now right.
Qed.

Lemma buckets_write (h : heap) (cs : jsobject loc) (co : jsobject Bucket.t)
    (k : string) (b : loc) (t : Z) (refs : list loc) (its : list item) :
  Forall2 (bucket_at h0 h) cs co ->
  NoDup (map snd cs) ->
  getOwn k cs = Some b ->
  items_of h0 refs = Some its ->
  Forall2 (bucket_at h0 (write b (CBucket t refs) h)) cs
          (setOwn k (Bucket.mk t its) co).
Proof.
  intros H Hnd Hget Hits.
  induction H as [|[k1 b1] [k2 bk2] cs co (Hk & Hf & refs0 & Hr & Hi) Hrest IH];
    [discriminate|].
  simpl in Hk, Hf, Hr, Hi, Hget, Hnd. subst k2. cbn [setOwn].
  inversion Hnd as [|? ? Hb1 Hnd']; subst.
  destruct (String.eqb k k1).
  - injection Hget as ->. constructor.
    + split; [reflexivity|]. split; [exact Hf|]. exists refs. simpl.
      split; [eapply read_write_eq; eauto | exact Hits].
    + eapply buckets_same_cells; [|exact Hrest].
      intros b' Hb'. apply read_write_neq. congruence.
  - constructor.
    + split; [reflexivity|]. split; [exact Hf|]. exists refs0. simpl.
      split; [|exact Hi]. rewrite read_write_neq; [exact Hr|].
      apply getOwn_in_values in Hget. congruence.
    + auto.
Qed.

Lemma sim_same_cells (h h' : heap) u cs unp co :
  cells h' = cells h -> sim h0 h u cs unp co -> sim h0 h' u cs unp co.
Proof.
  intros Hc (He & Hf & Hu & Hb & Hnd).
  assert (Hread : forall l, read l h' = read l h)
    by (intros l; unfold read; now rewrite Hc).
  split; [intros l c H; rewrite Hread; auto|]. split; [exact Hf|].
  split; [now rewrite Hread|]. split; [|exact Hnd].
  eapply buckets_same_cells; [|exact Hb]. auto.
Qed.

Lemma sim_push_unpriced (h : heap) u cs unp co (ref : loc) (it : item) :
  sim h0 h u cs unp co -> read ref h0 = Some (CItem it) ->
  exists h', push u ref h = (Ok tt, h') /\
             sim h0 h' u cs (unp ++ [it])%list co.
Proof.
  intros (He & Hf & (refs & Hu & Hi) & Hb & Hnd) Href.
  unfold push, bindM, read_array. rewrite Hu.
  eexists; split; [reflexivity|].
  inversion Hnd as [|? ? Hnotin Hnd']; subst.
  split; [now apply extends_write|]. split; [exact Hf|].
  split; [|split; [|exact Hnd]].
  - exists (refs ++ [ref])%list. split; [eapply read_write_eq; eauto|].
    now apply items_of_app.
  - eapply buckets_same_cells; [|exact Hb].
    intros b Hin. apply read_write_neq. congruence.
Qed.

Lemma sim_create (h : heap) u cs unp co (k : string) :
  sim h0 h u cs unp co -> getOwn k cs = None ->
  exists h', alloc (CBucket 0 []) h = (Ok (length (cells h)), h') /\
             sim h0 h' u (setOwn k (length (cells h)) cs) unp
                 (setOwn k (Bucket.mk 0 []) co).
Proof.
  intros (He & Hf & (refs & Hu & Hi) & Hb & Hnd) Hget.
  eexists; split; [reflexivity|].
  pose proof (buckets_get h cs co k Hb) as Hg. rewrite Hget in Hg.
  destruct (getOwn k co) eqn:Hget'; [contradiction|].
  rewrite (setOwn_new _ _ _ Hget), (setOwn_new _ _ _ Hget').
  split; [intros l c H; apply read_alloc_old; auto|]. split; [exact Hf|].
  split; [exists refs; split; [now apply read_alloc_old | exact Hi]|].
  split.
  - apply Forall2_app.
    + clear Hnd Hget Hget' Hg.
      induction Hb as [|[k1 b1] [k2 bk2] cs co (Hk & Hfb & refs0 & Hr & Hi0) _ IH];
        constructor; auto.
      split; [exact Hk|]. split; [exact Hfb|]. exists refs0.
      split; [now apply read_alloc_old | exact Hi0].
    + constructor; [|constructor].
      split; [reflexivity|]. split; [now apply read_length_fresh|].
      exists []. split; [apply read_alloc_new | reflexivity].
  - rewrite map_app. simpl.
    change (u :: (map snd cs ++ [length (cells h)]))%list
      with ((u :: map snd cs) ++ [length (cells h)])%list.
    apply NoDup_app; [exact Hnd | repeat constructor; simpl; tauto |].
    intros l Hl [E | []]. subst l.
    destruct Hl as [E | Hl].
    + unfold read in Hu. rewrite E in Hu.
      assert (nth_error (cells h) (length (cells h)) <> None) by congruence.
      apply nth_error_Some in H. lia.
    + pose proof (buckets_readable h cs co _ Hb Hl). lia.
Qed.

Lemma sim_write_bucket (h : heap) u cs unp co (k : string) (b : loc)
    (t : Z) (refs : list loc) (its : list item) :
  sim h0 h u cs unp co -> getOwn k cs = Some b ->
  items_of h0 refs = Some its ->
  sim h0 (write b (CBucket t refs) h) u cs unp (setOwn k (Bucket.mk t its) co).
Proof.
  intros (He & Hf & (urefs & Hu & Hi) & Hb & Hnd) Hget Hits.
  inversion Hnd as [|? ? Hnotin Hnd']; subst.
  pose proof (getOwn_in_values _ _ _ Hget) as Hin.
  assert (Hfb : fresh h0 b).
  { clear - Hb Hin. induction Hb as [|[k1 b1] [k2 bk2] cs co (_ & Hfb & _) _ IH];
      simpl in *; [tauto|]. destruct Hin as [<- | Hin]; auto. }
  split; [now apply extends_write|]. split; [exact Hf|].
  split; [|split; [|exact Hnd]].
  - exists urefs. split; [|exact Hi]. rewrite read_write_neq; [exact Hu|].
    congruence.
  - now apply buckets_write.
Qed.
End Simulation.

Lemma bindM_ok {A B : Type} (m : M A) (k : A -> M B) (h h' : heap) (a : A) :
  m h = (Ok a, h') -> bindM m k h = k a h'.
Proof. unfold bindM. now intros ->. Qed.

Lemma bindM_throw {A B : Type} (m : M A) (k : A -> M B) (h h' : heap) (e : error) :
  m h = (Throw e, h') -> bindM m k h = (Throw e, h').
Proof. unfold bindM. now intros ->. Qed.

Section Steps.
Variable h0 : heap.

Lemma add_to_total_sim (h : heap) u cs unp co (k : string) (c : Z) :
  sim h0 h u cs unp co ->
  match add_to_total k c co with
  | Ok co' => exists h', add_to_total_h k c cs h = (Ok tt, h') /\
                         sim h0 h' u cs unp co'
  | Throw e => exists h', add_to_total_h k c cs h = (Throw e, h') /\
                          extends h0 h'
  end.
Proof.
  intros Hs. pose proof Hs as (He & _ & _ & Hb & _).
  pose proof (buckets_get h0 h cs co k Hb) as Hg.
  unfold add_to_total, add_to_total_h, get.
  destruct (getOwn k cs) as [b|] eqn:Hcs; destruct (getOwn k co) as [bk|] eqn:Hco;
    try contradiction.
  - destruct Hg as (refs & Hr & Hi).
    eexists; split.
    + eapply eq_trans; [eapply bindM_ok; unfold read_bucket; now rewrite Hr|].
      reflexivity.
    + simpl. eapply sim_write_bucket; eauto.
  - destruct (inherited k).
    + eexists; split; [reflexivity|]. eapply sim_same_cells; [|exact Hs].
      reflexivity.
    + eexists; split; [reflexivity | exact He].
Qed.

Lemma push_item_sim (h : heap) u cs unp co (k : string) (ref : loc) (it : item) :
  sim h0 h u cs unp co -> read ref h0 = Some (CItem it) ->
  match push_item k it co with
  | Ok co' => exists h', push_item_h k ref cs h = (Ok tt, h') /\
                         sim h0 h' u cs unp co'
  | Throw e => exists h', push_item_h k ref cs h = (Throw e, h') /\
                          extends h0 h'
  end.
Proof.
  intros Hs Href. pose proof Hs as (He & _ & _ & Hb & _).
  pose proof (buckets_get h0 h cs co k Hb) as Hg.
  unfold push_item, push_item_h, get.
  destruct (getOwn k cs) as [b|] eqn:Hcs; destruct (getOwn k co) as [bk|] eqn:Hco;
    try contradiction.
  - destruct Hg as (refs & Hr & Hi).
    eexists; split.
    + eapply eq_trans; [eapply bindM_ok; unfold read_bucket; now rewrite Hr|].
      reflexivity.
    + simpl. eapply sim_write_bucket; eauto using items_of_app.
  - destruct (inherited k); eexists; split; try reflexivity; exact He.
Qed.

Lemma create_sim (h : heap) u cs unp co (k : string) :
  sim h0 h u cs unp co ->
  exists h' cs',
    match get k cs with
    | MUndefined => let! b := alloc (CBucket 0 []) in ret (setOwn k b cs)
    | _ => ret cs
    end h = (Ok cs', h') /\
    sim h0 h' u cs' unp
        match get k co with
        | MUndefined => setOwn k (Bucket.mk 0 []) co
        | _ => co
        end.
Proof.
  intros Hs. pose proof Hs as (He & _ & _ & Hb & _).
  pose proof (buckets_get h0 h cs co k Hb) as Hg.
  unfold get.
  destruct (getOwn k cs) as [b|] eqn:Hcs; destruct (getOwn k co) as [bk|] eqn:Hco;
    try contradiction.
  - now exists h, cs.
  - destruct (inherited k); [now exists h, cs|].
    destruct (sim_create h0 h u cs unp co k Hs Hcs) as (h' & E & Hs').
    exists h', (setOwn k (length (cells h)) cs). split; [|exact Hs'].
    eapply eq_trans; [eapply bindM_ok; exact E | reflexivity].
Qed.

Lemma visit_sim (h : heap) (sh : locals_h) (st : locals) (ref : loc) (it : item) :
  read ref h0 = Some (CItem it) ->
  h_totalConfirmedBudget sh = l_totalConfirmedBudget st ->
  sim h0 h (h_unpricedItems sh) (h_costsByType sh)
      (l_unpricedItems st) (l_costsByType st) ->
  match visit st it with
  | Ok st' =>
      exists sh' h',
        visit_h sh ref h = (Ok sh', h') /\
        h_totalConfirmedBudget sh' = l_totalConfirmedBudget st' /\
        h_unpricedItems sh' = h_unpricedItems sh /\
        sim h0 h' (h_unpricedItems sh') (h_costsByType sh')
            (l_unpricedItems st') (l_costsByType st')
  | Throw e => exists h', visit_h sh ref h = (Throw e, h') /\ extends h0 h'
  end.
Proof.
  intros Href Htot Hs. pose proof Hs as (He & _).
  unfold visit, visit_h.
  erewrite bindM_ok by (unfold read_item; now rewrite (He _ _ Href)).
  rewrite Htot.
  set (total1 := match confirmed_cost it with
                 | Some c => l_totalConfirmedBudget st + c
                 | None => l_totalConfirmedBudget st
                 end).
  set (unp1 := if String.eqb (status it) "Unpriced"
               then (l_unpricedItems st ++ [it])%list
               else l_unpricedItems st).
  assert (S1 : exists h1,
             (if String.eqb (status it) "Unpriced"
              then push (h_unpricedItems sh) ref else ret tt) h = (Ok tt, h1) /\
             sim h0 h1 (h_unpricedItems sh) (h_costsByType sh) unp1
                 (l_costsByType st)).
  { subst unp1. destruct (String.eqb (status it) "Unpriced").
    - eapply sim_push_unpriced; eauto.
    - now exists h. }
  destruct S1 as (h1 & E1 & Hs1).
  erewrite bindM_ok by exact E1.
  destruct (create_sim h1 _ _ _ _ (event it) Hs1) as (h2 & cs1 & E2 & Hs2).
  erewrite bindM_ok by exact E2.
  set (co1 := match get (event it) (l_costsByType st) with
              | MUndefined => setOwn (event it) (Bucket.mk 0 []) (l_costsByType st)
              | _ => l_costsByType st
              end) in *.
  assert (S3 : match (match confirmed_cost it with
                      | Some c => add_to_total (event it) c co1
                      | None => Ok co1
                      end) with
               | Ok co2 =>
                   exists h3,
                     match confirmed_cost it with
                     | Some c => add_to_total_h (event it) c cs1
                     | None => ret tt
                     end h2 = (Ok tt, h3) /\
                     sim h0 h3 (h_unpricedItems sh) cs1 unp1 co2
               | Throw e =>
                   exists h3,
                     match confirmed_cost it with
                     | Some c => add_to_total_h (event it) c cs1
                     | None => ret tt
                     end h2 = (Throw e, h3) /\ extends h0 h3
               end).
  { destruct (confirmed_cost it) as [c|].
    - now apply add_to_total_sim.
    - now exists h2. }
  destruct (match confirmed_cost it with
            | Some c => add_to_total (event it) c co1
            | None => Ok co1
            end) as [co2|e]; simpl.
  - destruct S3 as (h3 & E3 & Hs3).
    erewrite bindM_ok by exact E3.
    pose proof (push_item_sim h3 _ _ _ _ (event it) ref it Hs3 Href) as S4.
    destruct (push_item (event it) it co2) as [co3|e]; simpl.
    + destruct S4 as (h4 & E4 & Hs4).
      erewrite bindM_ok by exact E4.
      eexists _, h4. split; [reflexivity|]. simpl. auto.
    + destruct S4 as (h4 & E4 & He4).
      erewrite bindM_throw by exact E4. eauto.
  - destruct S3 as (h3 & E3 & He3).
    erewrite bindM_throw by exact E3. eauto.
Qed.
End Steps.

Lemma forEach_sim (h0 : heap) (refs : list loc) :
  forall (its : list item) (h : heap) (sh : locals_h) (st : locals),
    items_of h0 refs = Some its ->
    h_totalConfirmedBudget sh = l_totalConfirmedBudget st ->
    sim h0 h (h_unpricedItems sh) (h_costsByType sh)
        (l_unpricedItems st) (l_costsByType st) ->
    match forEach visit its st with
    | Ok st' =>
        exists sh' h',
          forEachM visit_h refs sh h = (Ok sh', h') /\
          h_totalConfirmedBudget sh' = l_totalConfirmedBudget st' /\
          h_unpricedItems sh' = h_unpricedItems sh /\
          sim h0 h' (h_unpricedItems sh') (h_costsByType sh')
              (l_unpricedItems st') (l_costsByType st')
    | Throw e => exists h', forEachM visit_h refs sh h = (Throw e, h') /\
                            extends h0 h'
    end.
Proof.
  induction refs as [|ref refs IH]; simpl; intros its h sh st Hits Htot Hs.
  - injection Hits as <-. simpl. exists sh, h. auto.
  - destruct (read ref h0) as [[it| |]|] eqn:Href; try discriminate.
    destruct (items_of h0 refs) as [its'|] eqn:Hits'; [|discriminate].
    injection Hits as <-. simpl.
    pose proof (visit_sim h0 h sh st ref it Href Htot Hs) as Hv.
    destruct (visit st it) as [st1|e]; simpl.
    + destruct Hv as (sh1 & h1 & E1 & Htot1 & Hu1 & Hs1).
      erewrite bindM_ok by exact E1.
      specialize (IH its' h1 sh1 st1 eq_refl Htot1 Hs1).
      destruct (forEach visit its' st1) as [st'|e].
      * destruct IH as (sh' & h' & E & Htot' & Hu' & Hs').
        exists sh', h'. split; [exact E|]. split; [exact Htot'|].
        split; [congruence | exact Hs'].
      * exact IH.
    + destruct Hv as (h1 & E1 & He1).
      erewrite bindM_throw by exact E1. eauto.
Qed.

Lemma mapM_read_item (h : heap) (refs : list loc) (its : list item) :
  items_of h refs = Some its -> mapM read_item refs h = (Ok its, h).
Proof.
  revert its; induction refs as [|r refs IH]; simpl; intros its H.
  - now injection H as <-.
  - destruct (read r h) as [[it| |]|] eqn:Hr; try discriminate.
    destruct (items_of h refs) as [its'|]; [|discriminate].
    injection H as <-.
    erewrite bindM_ok by (unfold read_item; now rewrite Hr).
    erewrite bindM_ok by (apply IH; reflexivity).
    reflexivity.
Qed.

Lemma mapM_read_entry (h0 h : heap) (cs : jsobject loc) (co : jsobject Bucket.t) :
  extends h0 h -> Forall2 (bucket_at h0 h) cs co ->
  mapM read_entry cs h = (Ok co, h).
Proof.
  intros He. induction 1 as [|[k b] [k' [t its]] cs co (Hk & _ & refs & Hr & Hi) _ IH];
    simpl; [reflexivity|].
  simpl in Hk, Hr, Hi. subst k'.
  unfold read_entry at 1.
  erewrite bindM_ok.
  2:{ erewrite bindM_ok by (unfold read_bucket; simpl; now rewrite Hr).
      erewrite bindM_ok by (apply mapM_read_item; eapply items_of_extends; eauto).
      reflexivity. }
  erewrite bindM_ok by exact IH.
  reflexivity.
Qed.

(** The function over the store leaves every cell it finds as it is and
    yields what [calculateMetrics] yields on the line items of the array. *)
Lemma calculateMetrics_h_refines (h : heap) (data : loc) (its : list item)
    (r : result metrics_h) (h' : heap) :
  items_at h data = Some its ->
  calculateMetrics_h data h = (r, h') ->
  extends h h' /\ observe h' r = Some (calculateMetrics its).
Proof.
  unfold items_at. intros Hdata.
  destruct (read data h) as [[|refs|]|] eqn:Hread; try discriminate.
  unfold calculateMetrics_h, calculateMetrics.
  set (h1 := mkHeap (cells h ++ [CArray []])%list (foreign_totals h)).
  erewrite bindM_ok by reflexivity. fold h1.
  assert (He1 : extends h h1) by (intros l c H; now apply read_alloc_old).
  erewrite bindM_ok by (unfold read_array; now rewrite (He1 _ _ Hread)).
  assert (Hs1 : sim h h1 (length (cells h)) [] [] []).
  { split; [exact He1|]. split; [apply read_length_fresh, extends_refl|].
    split; [exists []; split; [apply read_alloc_new | reflexivity]|].
    split; [constructor | repeat constructor; simpl; tauto]. }
  pose proof (forEach_sim h refs its h1 (mkLocalsH 0 (length (cells h)) [])
                          (mkLocals 0 [] []) Hdata eq_refl Hs1) as Hf.
  destruct (forEach visit its (mkLocals 0 [] [])) as [st|e]; simpl.
  - destruct Hf as (sh & h2 & E & Htot & Hu & (He2 & _ & (urefs & Hur & Hui) & Hb & _)).
    erewrite bindM_ok by exact E.
    erewrite bindM_ok by (eapply mapM_read_entry; eauto).
    unfold ret. intros H; injection H as <- <-.
    split; [exact He2|].
    unfold observe, items_at. simpl. simpl in Hu. rewrite <- Hu, Hur.
    rewrite (items_of_extends _ _ _ _ He2 Hui). now rewrite Htot.
  - destruct Hf as (h2 & E & He2).
    erewrite bindM_throw by exact E.
    intros H; injection H as <- <-. auto.
Qed.

Lemma items_at_extends (h h' : heap) (data : loc) (its : list item) :
  extends h h' -> items_at h data = Some its -> items_at h' data = Some its.
Proof.
  unfold items_at. intros He.
  destruct (read data h) as [[|refs|]|] eqn:Hread; try discriminate.
  rewrite (He _ _ Hread). now apply items_of_extends.
Qed.

Lemma observe_extends (h h' : heap) (r : result metrics_h) (o : result metrics) :
  extends h h' -> observe h r = Some o -> observe h' r = Some o.
Proof.
  intros He. destruct r as [m|e]; simpl; [|auto].
  destruct (items_at h (h_unpriced m)) as [its|] eqn:E; [|discriminate].
  now rewrite (items_at_extends _ _ _ _ He E).
Qed.

(** *** What the call assigns outside the store *)

Lemma keeps_bind {A B : Type} (m : M A) (k : A -> M B) :
  keeps_foreign m -> (forall a, keeps_foreign (k a)) -> keeps_foreign (bindM m k).
Proof.
  intros Hm Hk h r h'. unfold bindM.
  destruct (m h) as [[a|e] h1] eqn:E; intros H.
  - rewrite (Hk a _ _ _ H). exact (Hm _ _ _ E).
  - injection H as <- <-. exact (Hm _ _ _ E).
Qed.

Lemma keeps_ret {A : Type} (a : A) : keeps_foreign (ret a).
Proof. intros h r h' H. now injection H as <- <-. Qed.

Lemma keeps_throw {A : Type} (e : error) : keeps_foreign (@throw A e).
Proof. intros h r h' H. now injection H as <- <-. Qed.

Lemma keeps_alloc (c : cell) : keeps_foreign (alloc c).
Proof. intros h r h' H. now injection H as <- <-. Qed.

Lemma keeps_read_item (l : loc) : keeps_foreign (read_item l).
Proof.
  intros h r h'. unfold read_item.
  destruct (read l h) as [[| |]|]; intros H; now injection H as <- <-.
Qed.

Lemma keeps_read_array (l : loc) : keeps_foreign (read_array l).
Proof.
  intros h r h'. unfold read_array.
  destruct (read l h) as [[| |]|]; intros H; now injection H as <- <-.
Qed.

Lemma keeps_read_bucket (l : loc) : keeps_foreign (read_bucket l).
Proof.
  intros h r h'. unfold read_bucket.
  destruct (read l h) as [[| |]|]; intros H; now injection H as <- <-.
Qed.

Lemma keeps_write_bucket (l : loc) (total : Z) (items : list loc) :
  keeps_foreign (write_bucket l total items).
Proof. intros h r h' H. now injection H as <- <-. Qed.

Lemma keeps_push (array x : loc) : keeps_foreign (push array x).
Proof.
  apply keeps_bind; [apply keeps_read_array|].
  intros elements h r h' H. now injection H as <- <-.
Qed.

Lemma keeps_mapM {A B : Type} (f : A -> M B) (l : list A) :
  (forall x, keeps_foreign (f x)) -> keeps_foreign (mapM f l).
Proof.
  intros Hf. induction l as [|x l IH]; simpl; [apply keeps_ret|].
  apply keeps_bind; [apply Hf|]. intros y.
  apply keeps_bind; [exact IH|]. intros ys. apply keeps_ret.
Qed.

Lemma keeps_read_entry (e : string * loc) : keeps_foreign (read_entry e).
Proof.
  apply keeps_bind; [apply keeps_read_bucket|]. intros bucket.
  apply keeps_bind; [apply keeps_mapM, keeps_read_item|]. intros its.
  apply keeps_ret.
Qed.

Lemma get_not_foreign {V : Type} (k : string) (o : jsobject V) :
  inherited k = false -> get k o <> MForeign.
Proof. unfold get. intros ->. now destruct (getOwn k o). Qed.

Lemma keeps_add_to_total_h (k : string) (c : Z) (o : jsobject loc) :
  inherited k = false -> keeps_foreign (add_to_total_h k c o).
Proof.
  intros Hk. unfold add_to_total_h.
  pose proof (get_not_foreign k o Hk) as Hg.
  destruct (get k o) as [b| |]; [|contradiction|apply keeps_throw].
  apply keeps_bind; [apply keeps_read_bucket|]. intros bucket.
  apply keeps_write_bucket.
Qed.

Lemma keeps_push_item_h (k : string) (ref : loc) (o : jsobject loc) :
  keeps_foreign (push_item_h k ref o).
Proof.
  unfold push_item_h.
  destruct (get k o) as [b| |]; try apply keeps_throw.
  apply keeps_bind; [apply keeps_read_bucket|]. intros bucket.
  apply keeps_write_bucket.
Qed.

(** A line whose phase no member of [Object.prototype] is named like is
    visited without an assignment outside the store. *)
Lemma visit_h_keeps (sh : locals_h) (ref : loc) (h : heap) (it : item)
    (r : result locals_h) (h' : heap) :
  read ref h = Some (CItem it) -> inherited (event it) = false ->
  visit_h sh ref h = (r, h') -> foreign_totals h' = foreign_totals h.
Proof.
  intros Hr Hi. unfold visit_h.
  erewrite bindM_ok by (unfold read_item; now rewrite Hr).
  cbv zeta.
  match goal with
  | |- ?m h = _ -> _ => assert (K : keeps_foreign m)
  end.
  { apply keeps_bind.
    { destruct (String.eqb (status it) "Unpriced");
        [apply keeps_push | apply keeps_ret]. }
    intros _. apply keeps_bind.
    { destruct (get (event it) (h_costsByType sh)); try apply keeps_ret.
      apply keeps_bind; [apply keeps_alloc|]. intros b. apply keeps_ret. }
    intros costs1. apply keeps_bind.
    { destruct (confirmed_cost it);
        [now apply keeps_add_to_total_h | apply keeps_ret]. }
    intros _. apply keeps_bind; [apply keeps_push_item_h|].
    intros _. apply keeps_ret. }
  apply K.
Qed.

Lemma forEachM_visit_h_keeps (h0 : heap) (refs : list loc) :
  forall (its : list item) (h : heap) (sh : locals_h) (st : locals)
         (r : result locals_h) (h' : heap),
    items_of h0 refs = Some its ->
    Forall (fun it => inherited (event it) = false) its ->
    h_totalConfirmedBudget sh = l_totalConfirmedBudget st ->
    sim h0 h (h_unpricedItems sh) (h_costsByType sh)
        (l_unpricedItems st) (l_costsByType st) ->
    forEachM visit_h refs sh h = (r, h') ->
    foreign_totals h' = foreign_totals h.
Proof.
  induction refs as [|ref refs IH]; simpl; intros its h sh st r h' Hits Hsafe Htot Hs.
  - intros H. now injection H as <- <-.
  - destruct (read ref h0) as [[it| |]|] eqn:Href; try discriminate.
    destruct (items_of h0 refs) as [its'|] eqn:Hits'; [|discriminate].
    injection Hits as <-. inversion Hsafe as [|? ? Hit Hsafe']; subst.
    pose proof (visit_sim h0 h sh st ref it Href Htot Hs) as Hv.
    destruct (visit_cases st it) as [(_ & _ & Hinh) | (st1 & Hret & _)];
      [congruence|].
    rewrite Hret in Hv. destruct Hv as (sh1 & h1 & E1 & Htot1 & _ & Hs1).
    erewrite bindM_ok by exact E1. intros H.
    rewrite (IH its' h1 sh1 st1 r h' eq_refl Hsafe' Htot1 Hs1 H).
    destruct Hs as (He & _).
    exact (visit_h_keeps sh ref h it _ _ (He _ _ Href) Hit E1).
Qed.

(** On a list none of whose phases is named like a member of
    [Object.prototype], the call assigns nothing outside the store. *)
Lemma calculateMetrics_h_keeps (h : heap) (data : loc) (its : list item)
    (r : result metrics_h) (h' : heap) :
  items_at h data = Some its ->
  Forall (fun it => inherited (event it) = false) its ->
  calculateMetrics_h data h = (r, h') ->
  foreign_totals h' = foreign_totals h.
Proof.
  unfold items_at. intros Hdata Hsafe.
  destruct (read data h) as [[|refs|]|] eqn:Hread; try discriminate.
  unfold calculateMetrics_h.
  set (h1 := mkHeap (cells h ++ [CArray []])%list (foreign_totals h)).
  erewrite bindM_ok by reflexivity. fold h1.
  assert (He1 : extends h h1) by (intros l c H; now apply read_alloc_old).
  erewrite bindM_ok by (unfold read_array; now rewrite (He1 _ _ Hread)).
  assert (Hs1 : sim h h1 (length (cells h)) [] [] []).
  { split; [exact He1|]. split; [apply read_length_fresh, extends_refl|].
    split; [exists []; split; [apply read_alloc_new | reflexivity]|].
    split; [constructor | repeat constructor; simpl; tauto]. }
  unfold bindM at 1.
  destruct (forEachM visit_h refs (mkLocalsH 0 (length (cells h)) []) h1)
    as [[sh|e] h2] eqn:E.
  - pose proof (forEachM_visit_h_keeps h refs its h1
                  (mkLocalsH 0 (length (cells h)) []) (mkLocals 0 [] []) _ _
                  Hdata Hsafe eq_refl Hs1 E) as K.
    intros H.
    assert (K2 : keeps_foreign
                   (let! entries := mapM read_entry (h_costsByType sh) in
                    ret (mkMetricsH (h_totalConfirmedBudget sh) (length (cells h))
                           (map to_grouping (sortedCosts entries))))).
    { apply keeps_bind; [apply keeps_mapM, keeps_read_entry|].
      intros entries. apply keeps_ret. }
    rewrite (K2 _ _ _ H). exact K.
  - intros H. injection H as <- <-.
    exact (forEachM_visit_h_keeps h refs its h1
             (mkLocalsH 0 (length (cells h)) []) (mkLocals 0 [] []) _ _
             Hdata Hsafe eq_refl Hs1 E).
Qed.

(** C5. [calculateMetrics], run on a store whose cell [data] is an array of
    line items, modifies no cell that was there, so neither the array nor a
    line item; its outcome, be it a result or the error thrown, is the one
    the list of line items determines; a second call on the same array has
    the same outcome and leaves that of the first as it was; and on a list
    none of whose phases is named like a member of [Object.prototype] it
    assigns nothing outside the store.  It does have an effect outside the
    store on the single line whose phase is [__proto__] and whose cost is
    the number 5: it assigns [total] on [Object.prototype], on which no
    [total] was assigned before, and then throws. *)
Theorem calculateMetrics_effects :
  (forall (h : heap) (data : loc) (its : list item)
          (r1 r2 : result metrics_h) (h1 h2 : heap),
     items_at h data = Some its ->
     calculateMetrics_h data h = (r1, h1) ->
     calculateMetrics_h data h1 = (r2, h2) ->
     (forall l c, read l h = Some c -> read l h1 = Some c) /\
     items_at h1 data = Some its /\
     observe h1 r1 = Some (calculateMetrics its) /\
     observe h2 r2 = observe h1 r1 /\
     observe h2 r1 = observe h1 r1 /\
     (Forall (fun it => inherited (event it) = false) its ->
      foreign_totals h1 = foreign_totals h /\
      foreign_totals h2 = foreign_totals h)) /\
  (let h := mkHeap [CItem (priced "1.1" "__proto__" 5); CArray [0%nat]] [] in
   items_at h 1%nat = Some [priced "1.1" "__proto__" 5] /\
   foreign_totals h = [] /\
   fst (calculateMetrics_h 1%nat h) = Throw TypeError /\
   foreign_totals (snd (calculateMetrics_h 1%nat h)) = ["__proto__"]).
Proof.
  split; [|repeat split; reflexivity].
  intros h data its r1 r2 h1 h2 Hdata E1 E2.
  destruct (calculateMetrics_h_refines _ _ _ _ _ Hdata E1) as [He1 Ho1].
  pose proof (items_at_extends _ _ _ _ He1 Hdata) as Hdata1.
  destruct (calculateMetrics_h_refines _ _ _ _ _ Hdata1 E2) as [He2 Ho2].
  split; [exact He1|]. split; [exact Hdata1|]. split; [exact Ho1|].
  split; [congruence|]. split.
  - rewrite Ho1. eapply observe_extends; eauto.
  - intros Hsafe.
    pose proof (calculateMetrics_h_keeps _ _ _ _ _ Hdata Hsafe E1) as K1.
    pose proof (calculateMetrics_h_keeps _ _ _ _ _ Hdata1 Hsafe E2) as K2.
    split; congruence.
Qed.

Lemma calculateMetrics_effects_witness :
  observe (snd (calculateMetrics_h 3%nat scenario_heap))
          (fst (calculateMetrics_h 3%nat scenario_heap))
    = Some (calculateMetrics scenario) /\
  foreign_totals (snd (calculateMetrics_h 3%nat scenario_heap)) = [].
Proof.
  pose proof (proj1 calculateMetrics_effects scenario_heap 3%nat scenario
                (fst (calculateMetrics_h 3%nat scenario_heap))
                (fst (calculateMetrics_h 3%nat
                        (snd (calculateMetrics_h 3%nat scenario_heap))))
                (snd (calculateMetrics_h 3%nat scenario_heap))
                (snd (calculateMetrics_h 3%nat
                        (snd (calculateMetrics_h 3%nat scenario_heap))))
                eq_refl eq_refl eq_refl)
    as (_ & _ & Ho & _ & _ & Hf).
  split; [exact Ho|].
  apply Hf. repeat constructor.
Defined.

(* ================================================================== *)
(** * Part III. Further properties                                     *)
(* ================================================================== *)

(** ** calculateMetrics: what the buckets hold *)

Lemma getOwn_setOwn_other {V : Type} (k k0 : string) (v : V) (o : jsobject V) :
  k <> k0 -> getOwn k (setOwn k0 v o) = getOwn k o.
Proof.
  intros Hne. apply String.eqb_neq in Hne.
  induction o as [|[k' v'] o IH]; simpl.
  - now rewrite Hne.
  - destruct (String.eqb_spec k0 k') as [E|Hne']; simpl.
    + subst k'. now rewrite Hne.
    + now rewrite IH.
Qed.

Lemma setOwn_setOwn {V : Type} (k : string) (v v' : V) (o : jsobject V) :
  setOwn k v (setOwn k v' o) = setOwn k v o.
Proof.
  induction o as [|[k' v0] o IH]; simpl.
  - now rewrite String.eqb_refl.
  - destruct (String.eqb k k') eqn:E; simpl; rewrite E; [reflexivity|].
    now rewrite IH.
Qed.

Lemma getOwn_in {V : Type} (k : string) (v : V) (o : jsobject V) :
  getOwn k o = Some v -> In (k, v) o.
Proof.
  induction o as [|[k' v'] o IH]; simpl; [discriminate|].
  destruct (String.eqb_spec k k') as [->|Hne].
  - intros H; injection H as ->. now left.
  - intros H. right. auto.
Qed.

Lemma in_getOwn {V : Type} (k : string) (v : V) (o : jsobject V) :
  NoDup (map fst o) -> In (k, v) o -> getOwn k o = Some v.
Proof.
  induction o as [|[k' v'] o IH]; simpl; [tauto|].
  intros Hnd. inversion Hnd as [|? ? Hk Hnd']; subst.
  intros [E | Hin].
  - injection E as -> ->. now rewrite String.eqb_refl.
  - destruct (String.eqb_spec k k') as [->|Hne]; [|auto].
    exfalso. apply Hk. apply in_map_iff. now exists (k', v).
Qed.

(** The bucket of the visited phase after an iteration. *)
Lemma visit_costs (st st' : locals) (it : item) :
  visit st it = Ok st' ->
  l_costsByType st' =
    setOwn (event it)
      match getOwn (event it) (l_costsByType st) with
      | Some b => Bucket.mk (Bucket.total b + counted it) (Bucket.items b ++ [it])%list
      | None => Bucket.mk (counted it) [it]
      end
      (l_costsByType st).
Proof.
  unfold visit, add_to_total, push_item, get, counted.
  destruct (getOwn (event it) (l_costsByType st)) as [b|] eqn:Hown.
  - destruct (confirmed_cost it) as [c|]; simpl.
    + rewrite Hown. simpl. rewrite getOwn_setOwn. simpl.
      intros H; injection H as <-. simpl. now rewrite setOwn_setOwn.
    + rewrite Hown. simpl.
      intros H; injection H as <-. simpl. now rewrite Z.add_0_r.
  - destruct (inherited (event it)).
    + destruct (confirmed_cost it); simpl; rewrite Hown; simpl;
        rewrite ?Hown; discriminate.
    + destruct (confirmed_cost it) as [c|]; simpl.
      * rewrite getOwn_setOwn. simpl. rewrite getOwn_setOwn. simpl.
        intros H; injection H as <-. simpl. now rewrite !setOwn_setOwn.
      * rewrite getOwn_setOwn. simpl.
        intros H; injection H as <-. simpl. now rewrite !setOwn_setOwn.
Qed.

Lemma confirmed_sum_app (l1 l2 : list item) :
  confirmed_sum (l1 ++ l2) = confirmed_sum l1 + confirmed_sum l2.
Proof.
  induction l1 as [|it l1 IH]; simpl.
  - change (confirmed_sum []) with 0. lia.
  - rewrite !confirmed_sum_cons, IH. lia.
Qed.

Lemma phase_total_snoc (seen : list item) (it : item) (k : string) :
  phase_total (seen ++ [it]) k =
  phase_total seen k + (if String.eqb (event it) k then counted it else 0).
Proof.
  unfold phase_total. rewrite filter_app, confirmed_sum_app. simpl.
  destruct (String.eqb (event it) k).
  - rewrite confirmed_sum_cons. change (confirmed_sum []) with 0. lia.
  - change (confirmed_sum []) with 0. lia.
Qed.

Lemma phase_total_absent (seen : list item) (k : string) :
  ~ In k (map event seen) -> phase_total seen k = 0 /\
  filter (fun it => String.eqb (event it) k) seen = [].
Proof.
  intros Hk.
  assert (E : filter (fun it => String.eqb (event it) k) seen = []).
  { induction seen as [|it seen IH]; simpl; [reflexivity|].
    simpl in Hk. destruct (String.eqb_spec (event it) k) as [E|_]; [tauto|].
    apply IH. tauto. }
  unfold phase_total. now rewrite E.
Qed.

Lemma buckets_of_visit (seen : list item) (st st' : locals) (it : item) :
  visit st it = Ok st' ->
  keys_in_order (map event seen) (own_keys st) ->
  buckets_of seen (l_costsByType st) ->
  buckets_of (seen ++ [it]) (l_costsByType st').
Proof.
  intros E (_ & Hin & _) Hb k b.
  rewrite (visit_costs _ _ _ E).
  destruct (String.eqb_spec k (event it)) as [->|Hne].
  - rewrite getOwn_setOwn. intros H; injection H as <-.
    rewrite phase_total_snoc, filter_app, String.eqb_refl. simpl.
    rewrite String.eqb_refl.
    destruct (getOwn (event it) (l_costsByType st)) as [b0|] eqn:Hown.
    + destruct (Hb _ _ Hown) as [-> ->]. simpl. auto.
    + apply getOwn_None in Hown. fold (own_keys st) in Hown.
      rewrite Hin in Hown.
      destruct (phase_total_absent seen (event it) Hown) as [-> ->]. simpl. auto.
  - rewrite getOwn_setOwn_other by assumption. intros Hget.
    destruct (Hb _ _ Hget) as [-> ->].
    rewrite phase_total_snoc, filter_app. simpl.
    assert (Hf : String.eqb (event it) k = false)
      by (apply String.eqb_neq; congruence).
    rewrite Hf. rewrite List.app_nil_r. split; [lia | reflexivity].
Qed.

Lemma buckets_of_forEach (data : list item) :
  forall seen st st',
    forEach visit data st = Ok st' ->
    keys_in_order (map event seen) (own_keys st) ->
    buckets_of seen (l_costsByType st) ->
    keys_in_order (map event (seen ++ data)) (own_keys st') /\
    buckets_of (seen ++ data) (l_costsByType st').
Proof.
  induction data as [|it data IH]; simpl; intros seen st st' H Hk Hb.
  - injection H as <-. now rewrite List.app_nil_r.
  - destruct (visit st it) as [st1|] eqn:E; simpl in H; [|discriminate].
    replace (seen ++ it :: data)%list with ((seen ++ [it]) ++ data)%list
      by now rewrite <- app_assoc.
    eapply IH; [exact H | |].
    + rewrite map_app. simpl. eapply keys_in_order_visit; eauto.
    + eapply buckets_of_visit; eauto.
Qed.

(** What the buckets are when the loop has run over the whole list. *)
Lemma calculateMetrics_buckets (data : list item) (m : metrics) :
  calculateMetrics data = Ok m ->
  exists o,
    top3CostGroupings m = map to_grouping (sortedCosts o) /\
    NoDup (map fst o) /\
    (forall k, In k (map fst o) <-> In k (map event data)) /\
    buckets_of data o.
Proof.
  intros H. destruct (calculateMetrics_top3 data m H) as (st & E & Etop).
  exists (l_costsByType st). split; [exact Etop|].
  destruct (buckets_of_forEach data [] _ _ E) as [(Hnd & Hin & _) Hb].
  - split; [constructor|]. split; [reflexivity | intros ? ? []].
  - intros k b Hget. discriminate.
  - auto.
Qed.

Lemma sortedCosts_bucket (data : list item) (o : jsobject Bucket.t)
    (e : string * Bucket.t) :
  NoDup (map fst o) -> buckets_of data o -> In e (sortedCosts o) ->
  In (fst e) (map fst o) /\
  Bucket.total (snd e) = phase_total data (fst e) /\
  phase_qualifies data (fst e) = true.
Proof.
  intros Hnd Hb He. apply sortedCosts_qualify in He as [He Hq].
  apply (Permutation_in _ (Object_entries_perm o)) in He.
  destruct e as [k b]. pose proof (in_getOwn _ _ _ Hnd He) as Hget.
  destruct (Hb _ _ Hget) as [Ht _]. simpl in *.
  split; [apply in_map_iff; now exists (k, b)|]. split; [exact Ht|].
  unfold qualifies in Hq. unfold phase_qualifies. simpl in Hq.
  now rewrite <- Ht.
Qed.



(** *** Amounts within the safe integers *)

Lemma confirmed_sum_filter_bound (p : item -> bool) (data : list item) :
  Z.abs (confirmed_sum (filter p data)) <=
  fold_right Z.add 0 (map (fun it => Z.abs (counted it)) data).
Proof.
  induction data as [|it data IH]; cbn [filter map fold_right].
  - reflexivity.
  - destruct (p it); [rewrite confirmed_sum_cons|]; lia.
Qed.

Lemma confirmed_sum_bound (data : list item) :
  Z.abs (confirmed_sum data) <=
  fold_right Z.add 0 (map (fun it => Z.abs (counted it)) data).
Proof.
  induction data as [|it data IH]; cbn [map fold_right].
  - reflexivity.
  - rewrite confirmed_sum_cons. lia.
Qed.

(** X22. On whole-number costs whose magnitudes add up to at most
    [Number.MAX_SAFE_INTEGER], the total of each top grouping is the sum of
    the confirmed costs of the lines of its phase, and is itself of at most
    that magnitude. *)
Theorem top3_totals_exact (data : list item) (m : metrics) (g : Grouping.t) :
  safe_amounts data ->
  calculateMetrics data = Ok m ->
  In g (top3CostGroupings m) ->
  Grouping.total g = phase_total data (Grouping.phase g) /\
  Z.abs (Grouping.total g) <= MAX_SAFE_INTEGER.
Proof.
  intros Hsafe H Hg.
  destruct (calculateMetrics_buckets data m H) as (o & Etop & Hnd & Hin & Hb).
  rewrite Etop in Hg. apply in_map_iff in Hg as (e & <- & He).
  destruct (sortedCosts_bucket data o e Hnd Hb He) as (Hk & Ht & Hq).
  simpl. split; [exact Ht|]. rewrite Ht. unfold phase_total.
  etransitivity; [apply confirmed_sum_filter_bound | exact Hsafe].
Qed.

Lemma top3_totals_exact_witness :
  Grouping.total (Grouping.mk "A" 800) =
    phase_total scenario (Grouping.phase (Grouping.mk "A" 800)) /\
  Z.abs (Grouping.total (Grouping.mk "A" 800)) <= MAX_SAFE_INTEGER.
Proof.
  apply (top3_totals_exact scenario
           (mkMetrics 800
              [mkItem "2" "Procurement" "b" "A" (VNum 300) "CAPEX" "Unpriced"
                      false false]
              [Grouping.mk "A" 800])
           (Grouping.mk "A" 800)).
  - unfold safe_amounts, MAX_SAFE_INTEGER. simpl. lia.
  - reflexivity.
  - simpl. now left.
Defined.

Lemma filter_keeps_distinct {K E : Type} (key : E -> K) (keep : E -> bool) :
  forall xs : list E, NoDup (map key xs) -> NoDup (map key (filter keep xs)).
Proof.
  intros xs; induction xs as [|x xs IH]; simpl; [auto|].
  intros Hnd. inversion Hnd as [|? ? Hx Hnd']; subst.
  destruct (keep x); simpl; [|auto].
  constructor; [|auto].
  intros Hin. apply Hx. apply in_map_iff in Hin as (y & Hy & Hin).
  apply filter_In in Hin as [Hin _]. apply in_map_iff. eauto.
Qed.

Lemma NoDup_firstn {A : Type} (n : nat) (l : list A) :
  NoDup l -> NoDup (firstn n l).
Proof.
  intros H. rewrite <- (firstn_skipn n l) in H.
  eapply NoDup_app_remove_r; eauto.
Qed.

Lemma sortedCosts_keys_NoDup (o : jsobject Bucket.t) :
  NoDup (map fst o) -> NoDup (map fst (sortedCosts o)).
Proof.
  intros Hnd. unfold sortedCosts. rewrite <- firstn_map. apply NoDup_firstn.
  eapply Permutation_NoDup.
  - apply Permutation_map. apply Array_sort_perm.
  - apply filter_keeps_distinct.
    eapply Permutation_NoDup; [|exact Hnd].
    apply Permutation_map. symmetry. apply Object_entries_perm.
Qed.

(** X2. No phase appears twice among the top groupings. *)
Theorem top3_phases_distinct (data : list item) (m : metrics) :
  calculateMetrics data = Ok m ->
  NoDup (map Grouping.phase (top3CostGroupings m)).
Proof.
  intros H.
  destruct (calculateMetrics_buckets data m H) as (o & -> & Hnd & _ & _).
  rewrite map_map. simpl. now apply sortedCosts_keys_NoDup.
Qed.

Lemma top3_phases_distinct_witness :
  NoDup (map Grouping.phase [Grouping.mk "A" 800]).
Proof.
  apply (top3_phases_distinct scenario
           (mkMetrics 800
              [mkItem "2" "Procurement" "b" "A" (VNum 300) "CAPEX" "Unpriced"
                      false false]
              [Grouping.mk "A" 800])).
  reflexivity.
Defined.

Lemma filter_map_agree {A B : Type} (f : A -> B) (p : A -> bool) (q : B -> bool)
    (l : list A) :
  (forall x, In x l -> p x = q (f x)) ->
  map f (filter p l) = filter q (map f l).
Proof.
  induction l as [|x l IH]; simpl; intros H; [reflexivity|].
  rewrite <- (H x) by now left.
  destruct (p x); simpl; rewrite IH; auto.
Qed.

Lemma filter_perm {A : Type} (p : A -> bool) (l l' : list A) :
  Permutation l l' -> Permutation (filter p l) (filter p l').
Proof.
  induction 1 as [|x l l' _ IH|x y l|l l' l'' _ IH1 _ IH2]; simpl.
  - constructor.
  - destruct (p x); auto.
  - destruct (p x), (p y); auto using perm_swap.
  - now transitivity (filter p l').
Qed.

Lemma entries_qualify (data : list item) (o : jsobject Bucket.t) :
  NoDup (map fst o) -> buckets_of data o ->
  forall e, In e (Object_entries o) ->
            qualifies e = phase_qualifies data (fst e).
Proof.
  intros Hnd Hb [k b] He.
  apply (Permutation_in _ (Object_entries_perm o)) in He.
  destruct (Hb _ _ (in_getOwn _ _ _ Hnd He)) as [Ht _].
  unfold qualifies, phase_qualifies. simpl. now rewrite Ht.
Qed.

Lemma qualifying_entries (data : list item) (o : jsobject Bucket.t) :
  NoDup (map fst o) ->
  (forall k, In k (map fst o) <-> In k (map event data)) ->
  buckets_of data o ->
  Permutation (map fst (filter qualifies (Object_entries o)))
              (qualifying_phases data).
Proof.
  intros Hnd Hin Hb.
  rewrite (filter_map_agree fst qualifies (phase_qualifies data))
    by (apply entries_qualify; auto).
  unfold qualifying_phases. apply filter_perm.
  apply NoDup_Permutation.
  - eapply Permutation_NoDup; [|exact Hnd].
    apply Permutation_map. symmetry. apply Object_entries_perm.
  - apply NoDup_nodup.
  - intros k. rewrite nodup_In, <- Hin.
    split; apply Permutation_in; apply Permutation_map;
      [|symmetry]; apply Object_entries_perm.
Qed.


Lemma top3_positive (data : list item) (m : metrics) (g : Grouping.t) :
  calculateMetrics data = Ok m ->
  In g (top3CostGroupings m) -> 0 < Grouping.total g.
Proof.
  intros H Hg. destruct (calculateMetrics_top3 data m H) as (st & _ & E).
  rewrite E in Hg. apply in_map_iff in Hg as (e & <- & He).
  apply sortedCosts_qualify in He as [_ Hq]. unfold qualifies in Hq.
  apply andb_true_iff in Hq as [_ Ht]. now apply Z.ltb_lt in Ht.
Qed.






(** ** calculateMetrics: the groupings against the total *)

Lemma sum_totals_perm (l l' : list (string * Bucket.t)) :
  Permutation l l' -> sum_totals l = sum_totals l'.
Proof.
  induction 1; simpl; lia.
Qed.

Lemma sum_totals_filter_le (p : string * Bucket.t -> bool) (l : list (string * Bucket.t)) :
  (forall e, In e l -> 0 <= Bucket.total (snd e)) ->
  sum_totals (filter p l) <= sum_totals l.
Proof.
  induction l as [|e l IH]; simpl; intros H; [lia|].
  pose proof (H e (or_introl eq_refl)).
  assert (sum_totals (filter p l) <= sum_totals l) by (apply IH; auto).
  destruct (p e); simpl; lia.
Qed.

Lemma sum_totals_nonneg (l : list (string * Bucket.t)) :
  (forall e, In e l -> 0 <= Bucket.total (snd e)) -> 0 <= sum_totals l.
Proof.
  induction l as [|e l IH]; simpl; intros H; [lia|].
  pose proof (H e (or_introl eq_refl)).
  assert (0 <= sum_totals l) by (apply IH; auto). lia.
Qed.

Lemma sum_totals_firstn_le (n : nat) (l : list (string * Bucket.t)) :
  (forall e, In e l -> 0 <= Bucket.total (snd e)) ->
  sum_totals (firstn n l) <= sum_totals l.
Proof.
  revert n; induction l as [|e l IH]; intros [|n] H; simpl; try lia.
  - apply (sum_totals_nonneg (e :: l)). exact H.
  - assert (sum_totals (firstn n l) <= sum_totals l) by (apply IH; auto using in_cons).
    lia.
Qed.

Lemma sum_totals_setOwn (k : string) (b' : Bucket.t) (o : jsobject Bucket.t) :
  sum_totals (setOwn k b' o) =
  sum_totals o + Bucket.total b' -
  match getOwn k o with Some b => Bucket.total b | None => 0 end.
Proof.
  induction o as [|[k' b0] o IH]; simpl; [lia|].
  destruct (String.eqb k k'); simpl; lia.
Qed.

Lemma forEach_visit_sum_totals (data : list item) :
  forall st st',
    forEach visit data st = Ok st' ->
    l_totalConfirmedBudget st = sum_totals (l_costsByType st) ->
    l_totalConfirmedBudget st' = sum_totals (l_costsByType st').
Proof.
  induction data as [|it data IH]; simpl; intros st st' H Hinv.
  - now injection H as <-.
  - destruct (visit st it) as [st1|] eqn:E; simpl in H; [|discriminate].
    apply (IH _ _ H).
    rewrite (visit_costs _ _ _ E), sum_totals_setOwn.
    destruct (visit_cases st it) as [(E' & _) | (st2 & E' & _ & Ht & _)];
      rewrite E' in E; [discriminate|]. injection E as <-. rewrite Ht, Hinv.
    destruct (getOwn (event it) (l_costsByType st)); simpl; lia.
Qed.

Lemma counted_nonneg (it : item) :
  (forall n, cost it = VNum n -> 0 <= n) -> 0 <= counted it.
Proof.
  unfold counted, confirmed_cost. intros H.
  destruct (cost it); try lia. destruct (excludeFromSum it); [lia | auto].
Qed.

Lemma confirmed_sum_nonneg (l : list item) :
  (forall it n, In it l -> cost it = VNum n -> 0 <= n) -> 0 <= confirmed_sum l.
Proof.
  induction l as [|it l IH]; intros H.
  - change (confirmed_sum []) with 0. lia.
  - rewrite confirmed_sum_cons.
    assert (0 <= counted it) by (apply counted_nonneg; intros n; apply H; now left).
    assert (0 <= confirmed_sum l) by (apply IH; intros; eapply H; eauto using in_cons).
    lia.
Qed.

Lemma calculateMetrics_locals (data : list item) (m : metrics) :
  calculateMetrics data = Ok m ->
  exists st, forEach visit data (mkLocals 0 [] []) = Ok st /\
             totalConfirmedBudget m = l_totalConfirmedBudget st /\
             top3CostGroupings m = map to_grouping (sortedCosts (l_costsByType st)).
Proof.
  unfold calculateMetrics. intros H.
  destruct (forEach visit data _) as [st|] eqn:E; simpl in H; [|discriminate].
  injection H as <-. now exists st.
Qed.

Lemma sum_groupings_map (l : list (string * Bucket.t)) :
  sum_groupings (map to_grouping l) = sum_totals l.
Proof. induction l as [|e l IH]; simpl; [reflexivity | now rewrite IH]. Qed.

(** X5. When the costs of the list are whole numbers, none negative, that
    add up to at most [Number.MAX_SAFE_INTEGER], the top groupings add up
    to no more than the confirmed budget, which is at most that number. *)
Theorem top3_within_budget (data : list item) (m : metrics) :
  safe_amounts data ->
  (forall it n, In it data -> cost it = VNum n -> 0 <= n) ->
  calculateMetrics data = Ok m ->
  sum_groupings (top3CostGroupings m) <= totalConfirmedBudget m /\
  totalConfirmedBudget m <= MAX_SAFE_INTEGER.
Proof.
  intros Hsafe Hpos H. split.
  2:{ rewrite (calculateMetrics_total data m H).
      pose proof (confirmed_sum_bound data). unfold safe_amounts in Hsafe. lia. }
  clear Hsafe.
  destruct (calculateMetrics_locals data m H) as (st & E & -> & ->).
  rewrite (forEach_visit_sum_totals data _ _ E eq_refl).
  destruct (buckets_of_forEach data [] _ _ E) as [(Hnd & _ & _) Hb].
  { split; [constructor|]. split; [reflexivity | intros ? ? []]. }
  { intros k b Hget. discriminate. }
  simpl in Hb. set (o := l_costsByType st) in *. fold (own_keys st) in Hnd.
  assert (Hnn : forall e, In e o -> 0 <= Bucket.total (snd e)).
  { intros [k b] He. simpl.
    destruct (Hb _ _ (in_getOwn _ _ _ Hnd He)) as [-> _].
    apply confirmed_sum_nonneg. intros it n Hit.
    apply filter_In in Hit as [Hit _]. now apply Hpos. }
  assert (HnnE : forall e, In e (Object_entries o) -> 0 <= Bucket.total (snd e)).
  { intros e He. apply Hnn.
    now apply (Permutation_in _ (Object_entries_perm o)). }
  rewrite sum_groupings_map. unfold sortedCosts.
  etransitivity; [apply sum_totals_firstn_le|].
  { intros e He.
    apply (Permutation_in _ (Permutation_sym (Array_sort_perm _ _))) in He.
    apply filter_In in He as [He _]. auto. }
  rewrite <- (sum_totals_perm _ _ (Array_sort_perm _ _)).
  etransitivity; [apply sum_totals_filter_le; exact HnnE|].
  rewrite (sum_totals_perm _ _ (Object_entries_perm o)). lia.
Qed.

Lemma top3_within_budget_witness :
  sum_groupings [Grouping.mk "A" 800] <= 800 /\ 800 <= MAX_SAFE_INTEGER.
Proof.
  apply (top3_within_budget scenario
           (mkMetrics 800
              [mkItem "2" "Procurement" "b" "A" (VNum 300) "CAPEX" "Unpriced"
                      false false]
              [Grouping.mk "A" 800])).
  - unfold safe_amounts, MAX_SAFE_INTEGER. simpl. lia.
  - intros it n [<- | [<- | [<- | []]]] E; injection E as <-; lia.
  - reflexivity.
Defined.

(** ** calculateMetrics after a change of the other fields *)

Section MetricFields.
Variable f : item -> item.
Hypothesis Hf : keeps_metric_fields f.

Lemma counted_keeps (it : item) : counted (f it) = counted it.
Proof.
  destruct (Hf it) as (_ & Hc & He & _).
  unfold counted, confirmed_cost. now rewrite Hc, He.
Qed.

Lemma is_unpriced_keeps (it : item) : is_unpriced (f it) = is_unpriced it.
Proof.
  destruct (Hf it) as (_ & _ & _ & Hs). unfold is_unpriced. now rewrite Hs.
Qed.

Lemma getOwn_map_bucket (k : string) (o : jsobject Bucket.t) :
  getOwn k (map (map_bucket f) o) =
  option_map (fun b => Bucket.mk (Bucket.total b) (map f (Bucket.items b)))
             (getOwn k o).
Proof.
  induction o as [|[k' b] o IH]; simpl; [reflexivity|].
  destruct (String.eqb k k'); [reflexivity | exact IH].
Qed.

Lemma setOwn_map_bucket (k : string) (b : Bucket.t) (o : jsobject Bucket.t) :
  setOwn k (Bucket.mk (Bucket.total b) (map f (Bucket.items b)))
         (map (map_bucket f) o) =
  map (map_bucket f) (setOwn k b o).
Proof.
  induction o as [|[k' b0] o IH]; simpl; [reflexivity|].
  destruct (String.eqb k k'); simpl; [reflexivity | now rewrite IH].
Qed.

Lemma visit_map (st : locals) (it : item) :
  visit (map_locals f st) (f it) =
  match visit st it with
  | Ok st' => Ok (map_locals f st')
  | Throw e => Throw e
  end.
Proof.
  pose proof (Hf it) as (Hev & _).
  assert (Hget : getOwn (event (f it)) (l_costsByType (map_locals f st)) = None <->
                 getOwn (event it) (l_costsByType st) = None).
  { simpl. rewrite Hev, getOwn_map_bucket.
    destruct (getOwn (event it) (l_costsByType st)); simpl;
      split; congruence. }
  destruct (visit_cases st it) as [(E & Hown & Hinh) | (st' & E & Hi & Ht & Hu & _)];
    rewrite E.
  - apply visit_throws; [now apply Hget | now rewrite Hev].
  - destruct (visit_returns (map_locals f st) (f it)) as (st2 & E2 & Ht2 & Hu2 & _).
    { intros H. rewrite Hev. apply Hi. now apply Hget. }
    rewrite E2. f_equal.
    pose proof (visit_costs _ _ _ E) as Hc.
    pose proof (visit_costs _ _ _ E2) as Hc2.
    destruct st2 as [t2 u2 c2], st' as [t' u' c']. unfold map_locals. simpl in *.
    f_equal.
    + rewrite Ht2, Ht, counted_keeps. reflexivity.
    + rewrite Hu2, Hu, is_unpriced_keeps, map_app.
      now destruct (is_unpriced it).
    + rewrite Hc2, Hc, Hev, getOwn_map_bucket, counted_keeps.
      destruct (getOwn (event it) (l_costsByType st)) as [b|]; simpl.
      * rewrite <- setOwn_map_bucket. simpl. now rewrite map_app.
      * rewrite <- setOwn_map_bucket. reflexivity.
Qed.

Lemma forEach_visit_map (data : list item) :
  forall st,
    forEach visit (map f data) (map_locals f st) =
    match forEach visit data st with
    | Ok st' => Ok (map_locals f st')
    | Throw e => Throw e
    end.
Proof.
  induction data as [|it data IH]; simpl; intros st; [reflexivity|].
  rewrite visit_map. destruct (visit st it) as [st1|e]; simpl; [apply IH | reflexivity].
Qed.

Lemma filter_map_bucket (p : string * Bucket.t -> bool) (l : list (string * Bucket.t)) :
  (forall e, p (map_bucket f e) = p e) ->
  filter p (map (map_bucket f) l) = map (map_bucket f) (filter p l).
Proof.
  intros Hp. induction l as [|e l IH]; simpl; [reflexivity|].
  rewrite Hp. destruct (p e); simpl; now rewrite IH.
Qed.

Lemma sort_by_index_map_bucket (l : list (string * Bucket.t)) :
  sort_by_index (map (map_bucket f) l) = map (map_bucket f) (sort_by_index l).
Proof.
  induction l as [|e l IH]; simpl; [reflexivity|].
  fold (sort_by_index (map (map_bucket f) l)). fold (sort_by_index l).
  rewrite IH. generalize (sort_by_index l). clear.
  intros l. induction l as [|e' l IH]; simpl; [reflexivity|].
  destruct (_ <=? _)%N; simpl; [reflexivity | now rewrite IH].
Qed.

Lemma Object_entries_map_bucket (o : jsobject Bucket.t) :
  Object_entries (map (map_bucket f) o) = map (map_bucket f) (Object_entries o).
Proof.
  unfold Object_entries.
  rewrite !filter_map_bucket by reflexivity.
  now rewrite sort_by_index_map_bucket, map_app.
Qed.

Lemma Array_sort_map_bucket (l : list (string * Bucket.t)) :
  Array_sort by_total_desc (map (map_bucket f) l) =
  map (map_bucket f) (Array_sort by_total_desc l).
Proof.
  induction l as [|e l IH]; simpl; [reflexivity|].
  fold (Array_sort by_total_desc (map (map_bucket f) l)).
  fold (Array_sort by_total_desc l).
  rewrite IH. generalize (Array_sort by_total_desc l). clear.
  intros l. induction l as [|e' l IH]; simpl; [reflexivity|].
  change (by_total_desc (map_bucket f e) (map_bucket f e'))
    with (by_total_desc e e').
  destruct (_ <=? _); simpl; [reflexivity | now rewrite IH].
Qed.

Lemma sortedCosts_map_bucket (o : jsobject Bucket.t) :
  map to_grouping (sortedCosts (map (map_bucket f) o)) =
  map to_grouping (sortedCosts o).
Proof.
  unfold sortedCosts.
  rewrite Object_entries_map_bucket, filter_map_bucket by reflexivity.
  rewrite Array_sort_map_bucket, firstn_map, map_map.
  reflexivity.
Qed.

Lemma calculateMetrics_map (data : list item) :
  calculateMetrics (map f data) =
  match calculateMetrics data with
  | Ok m => Ok (mkMetrics (totalConfirmedBudget m) (map f (unpricedItems m))
                          (top3CostGroupings m))
  | Throw e => Throw e
  end.
Proof.
  unfold calculateMetrics.
  change (mkLocals 0 [] []) with (map_locals f (mkLocals 0 [] [])) at 1.
  rewrite forEach_visit_map.
  destruct (forEach visit data _) as [st|e]; simpl; [|reflexivity].
  now rewrite sortedCosts_map_bucket.
Qed.
End MetricFields.

Lemma toggle_keeps_metric_fields (id0 : string) (isChecked : bool) :
  keeps_metric_fields (toggle id0 isChecked).
Proof.
  intros it. unfold toggle. destruct (String.eqb (id it) id0); simpl; auto.
Qed.

(** X6. Ticking or unticking a line changes neither the confirmed budget nor
    the top groupings, nor whether [calculateMetrics] throws; the unpriced
    items are those of before, with the same line ticked. *)
Theorem calculateMetrics_after_toggle (id0 : string) (isChecked : bool)
    (data : list item) :
  calculateMetrics (handleToggleDone id0 isChecked data) =
  match calculateMetrics data with
  | Ok m => Ok (mkMetrics (totalConfirmedBudget m)
                          (handleToggleDone id0 isChecked (unpricedItems m))
                          (top3CostGroupings m))
  | Throw e => Throw e
  end.
Proof.
  apply (calculateMetrics_map (toggle id0 isChecked)).
  apply toggle_keeps_metric_fields.
Qed.

(** ** handleToggleDone: how updates combine *)

Lemma with_done_same (it : item) : with_done it (done it) = it.
Proof. now destruct it. Qed.

Lemma toggle_fixed (id0 : string) (isChecked : bool) (it : item) :
  toggle id0 isChecked it = it <-> (id it = id0 -> done it = isChecked).
Proof.
  unfold toggle. destruct (String.eqb_spec (id it) id0) as [E|Hne].
  - split.
    + intros H _. rewrite <- H. reflexivity.
    + intros H. rewrite <- (H E). apply with_done_same.
  - split; [intros _ E; contradiction | reflexivity].
Qed.

(** X7. An update leaves the list as it is exactly when every line of the
    given id already has the given value; so it does when no line has that
    id. *)
Theorem handleToggleDone_noop (id0 : string) (isChecked : bool) (data : list item) :
  (handleToggleDone id0 isChecked data = data <->
   forall it, In it data -> id it = id0 -> done it = isChecked) /\
  (~ In id0 (map id data) -> handleToggleDone id0 isChecked data = data).
Proof.
  assert (Hiff : handleToggleDone id0 isChecked data = data <->
                 forall it, In it data -> id it = id0 -> done it = isChecked).
  { change (handleToggleDone id0 isChecked data)
      with (map (toggle id0 isChecked) data).
    induction data as [|it data IH]; simpl.
    - split; [intros _ ? [] | reflexivity].
    - split.
      + intros H. injection H as H1 H2. intros it' [<- | Hin].
        * now apply toggle_fixed.
        * now apply IH.
      + intros H. f_equal.
        * apply toggle_fixed. apply H. now left.
        * apply IH. intros it' Hin. apply H. now right. }
  split; [exact Hiff|].
  intros Hno. apply Hiff. intros it Hin E. exfalso. apply Hno.
  rewrite <- E. now apply in_map.
Qed.

(** X8. Of two updates of the same id, the later decides: the list is the
    one the later update alone gives. *)
Theorem handleToggleDone_overwrites (id0 : string) (b b' : bool) (data : list item) :
  handleToggleDone id0 b (handleToggleDone id0 b' data) =
  handleToggleDone id0 b data.
Proof.
  unfold handleToggleDone. rewrite map_map. apply map_ext.
  intros it. destruct (String.eqb (id it) id0) eqn:E; simpl; now rewrite E.
Qed.

(** X9. Updates of two different ids give the same list in either order. *)
Theorem handleToggleDone_commutes (id1 id2 : string) (b1 b2 : bool)
    (data : list item) :
  id1 <> id2 ->
  handleToggleDone id1 b1 (handleToggleDone id2 b2 data) =
  handleToggleDone id2 b2 (handleToggleDone id1 b1 data).
Proof.
  intros Hne. unfold handleToggleDone. rewrite !map_map. apply map_ext.
  intros it.
  destruct (String.eqb (id it) id1) eqn:E1;
    destruct (String.eqb (id it) id2) eqn:E2; simpl;
    rewrite ?E1, ?E2; try reflexivity.
  apply String.eqb_eq in E1, E2. congruence.
Qed.

Lemma handleToggleDone_commutes_witness :
  handleToggleDone "1" true (handleToggleDone "2" true scenario) =
  handleToggleDone "2" true (handleToggleDone "1" true scenario).
Proof.
  apply (handleToggleDone_commutes "1" "2" true true scenario).
  discriminate.
Defined.

(** ** filteredData *)

Lemma visible_toggle (filters : Filters.t) (id0 : string) (isChecked : bool)
    (it : item) :
  visible filters (toggle id0 isChecked it) = visible filters it.
Proof.
  unfold toggle. now destruct (String.eqb (id it) id0).
Qed.

Lemma filter_all_visible (data : list item) :
  filter (visible (Filters.mk "All" "All")) data = data.
Proof.
  induction data as [|it data IH]; simpl; [reflexivity|].
  rewrite IH.
  assert (E : visible (Filters.mk "All" "All") it = true).
  { unfold visible. simpl. now destruct (_ || _). }
  now rewrite E.
Qed.

(** X10. With both filters at "All", the table shows the whole list. *)
Theorem filteredData_all (data : list item) :
  filteredData data (Filters.mk "All" "All") = data.
Proof. apply filter_all_visible. Qed.

(** X11. Ticking a line and filtering commute: the rows shown after an
    update are the rows shown before, with the same update applied. *)
Theorem filteredData_after_toggle (filters : Filters.t) (id0 : string)
    (isChecked : bool) (data : list item) :
  filteredData (handleToggleDone id0 isChecked data) filters =
  handleToggleDone id0 isChecked (filteredData data filters).
Proof.
  unfold filteredData.
  change (handleToggleDone id0 isChecked) with (map (toggle id0 isChecked)).
  induction data as [|it data IH]; simpl; [reflexivity|].
  rewrite visible_toggle.
  destruct (visible filters it); simpl; now rewrite IH.
Qed.

(** ** Keys of the rendered rows *)

Lemma NoDup_ids_filter (p : item -> bool) (data : list item) :
  NoDup (map id data) -> NoDup (map id (filter p data)).
Proof. apply filter_keeps_distinct. Qed.

(** X12. When the ids of the list are distinct, so are the ids of the rows
    the table shows, of the unpriced items and of the list after an update:
    the keys [item.id] of the rendered rows do not collide. *)
Theorem ids_stay_distinct (data : list item) :
  NoDup (map id data) ->
  (forall filters, NoDup (map id (filteredData data filters))) /\
  (forall m, calculateMetrics data = Ok m -> NoDup (map id (unpricedItems m))) /\
  (forall id0 isChecked, NoDup (map id (handleToggleDone id0 isChecked data))).
Proof.
  intros Hnd. split; [|split].
  - intros filters. now apply NoDup_ids_filter.
  - intros m H. rewrite (calculateMetrics_unpriced data m H).
    now apply NoDup_ids_filter.
  - intros id0 isChecked. unfold handleToggleDone. rewrite map_map.
    erewrite map_ext; [exact Hnd|].
    intros it. simpl. now destruct (String.eqb (id it) id0).
Qed.

Lemma ids_stay_distinct_witness :
  NoDup (map id (filteredData scenario (Filters.mk "All" "Unpriced"))).
Proof.
  apply (proj1 (ids_stay_distinct scenario
                  ltac:(repeat constructor; simpl; intuition discriminate))).
Defined.

(** ** formatCurrency: amounts can be told apart *)







(** ** handleExportToCSV: reading a row back *)

Lemma string_app_assoc (a b c : string) : (a ++ b) ++ c = a ++ (b ++ c).
Proof. induction a as [|x a IH]; simpl; [reflexivity | now rewrite IH]. Qed.

Lemma string_app_nil_r (a : string) : a ++ "" = a.
Proof. induction a as [|x a IH]; simpl; [reflexivity | now rewrite IH]. Qed.

Lemma parse_row_field (f rest acc : string) :
  parse_row (double_quotes f ++ rest) (InField acc) =
  parse_row rest (InField (acc ++ f)).
Proof.
  revert acc; induction f as [|c f IH]; intros acc; simpl.
  - now rewrite string_app_nil_r.
  - destruct (Ascii.eqb c dquote) eqn:E; simpl.
    + apply Ascii.eqb_eq in E. subst c.
      rewrite IH, string_app_assoc. reflexivity.
    + rewrite E, IH, string_app_assoc. reflexivity.
Qed.

Lemma parse_row_quoted (f rest : string) :
  parse_row (quoted (double_quotes f) ++ rest) AtField =
  parse_row rest (AfterQuote f).
Proof.
  unfold quoted. simpl.
  rewrite string_app_assoc, parse_row_field. reflexivity.
Qed.

Lemma parse_row_fields (f : string) (fs : list string) :
  parse_row (String.concat "," (map (fun x => quoted (double_quotes x)) (f :: fs)))
            AtField
  = Some (f :: fs).
Proof.
  revert f; induction fs as [|g fs IH]; intros f.
  - cbn [map String.concat].
    rewrite <- (string_app_nil_r (quoted (double_quotes f))).
    now rewrite parse_row_quoted.
  - change (String.concat "," (map (fun x => quoted (double_quotes x)) (f :: g :: fs)))
      with (quoted (double_quotes f) ++ "," ++
            String.concat "," (map (fun x => quoted (double_quotes x)) (g :: fs))).
    rewrite parse_row_quoted.
    transitivity
      (option_map (cons f)
         (parse_row
            (String.concat "," (map (fun x => quoted (double_quotes x)) (g :: fs)))
            AtField));
      [reflexivity|].
    now rewrite IH.
Qed.

Lemma double_quotes_none (s : string) : has_quote s = false -> double_quotes s = s.
Proof.
  induction s as [|c s IH]; simpl; [reflexivity|].
  destruct (Ascii.eqb c dquote); simpl; [discriminate|].
  intros H. now rewrite IH.
Qed.

Lemma has_quote_string_of_uint (d : Decimal.uint) :
  has_quote (NilEmpty.string_of_uint d) = false.
Proof. induction d; simpl; auto. Qed.

Lemma has_quote_costStr (it : item) : has_quote (costStr it) = false.
Proof.
  unfold costStr. destruct (strict_equal _ _); [reflexivity|].
  destruct (cost it); try reflexivity.
  unfold Number_toString. destruct (Z.to_int n); simpl;
    apply has_quote_string_of_uint.
Qed.

Lemma has_quote_notes (it : item) : has_quote (notes it) = false.
Proof.
  unfold notes. destruct (String.eqb _ _); [reflexivity|].
  destruct (String.eqb _ _); reflexivity.
Qed.

(** X14. A row of the export, read as comma-separated quoted fields in
    which a pair of double quotes stands for one, gives back the eight
    values of its line, the description with its double quotes, provided
    the id, the event, the type and the cost type hold no double quote. *)
Theorem csvRow_reads_back (it : item) :
  has_quote (id it) = false ->
  has_quote (event it) = false ->
  has_quote (type it) = false ->
  has_quote (costType it) = false ->
  parse_row (csvRow it) AtField =
  Some [ if done it then "YES" else "NO"; id it; description it; event it;
         type it; costType it; costStr it; notes it ].
Proof.
  intros Hid Hev Hty Hct.
  rewrite <- parse_row_fields. f_equal.
  unfold csvRow, row_fields. cbn [map].
  rewrite (double_quotes_none (id it)), (double_quotes_none (event it)),
    (double_quotes_none (type it)), (double_quotes_none (costType it)),
    (double_quotes_none (costStr it)), (double_quotes_none (notes it))
    by auto using has_quote_costStr, has_quote_notes.
  now destruct (done it).
Qed.

Lemma csvRow_reads_back_witness :
  parse_row (csvRow (priced "1.1" "Venue" 8000)) AtField =
  Some ["NO"; "1.1"; "line"; "Venue"; "Procurement"; "CAPEX"; "8000"; ""].
Proof.
  apply (csvRow_reads_back (priced "1.1" "Venue" 8000)); reflexivity.
Defined.

(** A double quote in a field other than the description is copied as it
    is, and the row no longer reads back. *)
Example csvRow_quote_in_id :
  parse_row
    (csvRow (mkItem (String dquote "1") "Procurement" "line" "Venue" (VNum 5)
                    "CAPEX" "Priced" false false))
    AtField = None.
Proof. reflexivity. Qed.

(** ** handleExportToCSV after handleToggleDone *)

Lemma csvRow_split (it : item) :
  csvRow it = quoted (if done it then "YES" else "NO") ++ "," ++ row_tail it.
Proof. reflexivity. Qed.

Lemma row_tail_with_done (it : item) (isChecked : bool) :
  row_tail (with_done it isChecked) = row_tail it.
Proof. reflexivity. Qed.

(** X15. After an update, the export has the same rows as before, except
    that the row of a line of the given id starts with the given value, YES
    or NO; the rest of that row is unchanged. *)
Theorem export_after_toggle (id0 : string) (isChecked : bool) (data : list item) :
  csvRows (handleToggleDone id0 isChecked data) =
  map (fun it =>
         if String.eqb (id it) id0
         then quoted (if isChecked then "YES" else "NO") ++ "," ++ row_tail it
         else csvRow it)
      data /\
  (forall it, csvRow it =
              quoted (if done it then "YES" else "NO") ++ "," ++ row_tail it).
Proof.
  split; [|apply csvRow_split].
  unfold csvRows, handleToggleDone. rewrite map_map. apply map_ext.
  intros it. destruct (String.eqb (id it) id0); [|reflexivity].
  now rewrite csvRow_split, row_tail_with_done.
Qed.

(** ** handleFilterChange *)

(** X16. A change of the type dropdown and a change of the cost dropdown
    set the filters to the two chosen values, in either order and whatever
    the filters were; when both choose "All", the table shows the whole
    list again. *)
Theorem handleFilterChange_dropdowns (v w : string) (prev : Filters.t)
    (data : list item) :
  handleFilterChange "filter-cost" w (handleFilterChange "filter-type" v prev)
    = Filters.mk v w /\
  handleFilterChange "filter-type" v (handleFilterChange "filter-cost" w prev)
    = Filters.mk v w /\
  filteredData data
    (handleFilterChange "filter-cost" "All"
       (handleFilterChange "filter-type" "All" prev)) = data.
Proof.
  split; [reflexivity|]. split; [reflexivity|].
  apply filter_all_visible.
Qed.

(** ** SummaryCards: the cost-grouping card *)



Lemma toLocaleString_enUS_positive (n : Z) :
  0 < n ->
  exists digits,
    Number_toString n = digits /\ digits <> "" /\ all_digits digits = true /\
    toLocaleString_enUS n = group_digits digits.
Proof.
  intros Hn. destruct n as [|p|p]; try lia.
  exists (NilEmpty.string_of_uint (Pos.to_uint p)).
  split; [reflexivity|]. split; [|split; [|reflexivity]].
  - apply string_of_uint_nonempty, DecimalPos.Unsigned.to_uint_nonnil.
  - apply string_of_uint_all_digits.
Qed.

(** X23. On whole-number costs whose magnitudes add up to at most
    [Number.MAX_SAFE_INTEGER], each amount the card shows is the naira sign
    followed by digits in groups of three, and the digits are those of the
    sum of the confirmed costs of the lines of the row's phase. *)
Theorem groupedHtml_amounts (data : list item) (m : metrics)
    (rows : list (string * string)) (amount phase0 : string) :
  safe_amounts data ->
  calculateMetrics data = Ok m ->
  groupedHtml (top3CostGroupings m) = TopGroupings rows ->
  In (amount, phase0) rows ->
  exists body,
    amount = "₦" ++ body /\ thousands_grouped body /\
    remove_commas body = Number_toString (phase_total data phase0).
Proof.
  intros _ H Hrows Hin. unfold groupedHtml in Hrows.
  destruct (0 <? length (top3CostGroupings m))%nat; [|discriminate].
  injection Hrows as <-. apply in_map_iff in Hin as (g & E & Hg).
  injection E as <- <-.
  pose proof (top3_positive data m g H Hg) as Hpos.
  destruct (calculateMetrics_buckets data m H) as (o & Etop & Hnd & Hi & Hb).
  rewrite Etop in Hg. apply in_map_iff in Hg as (e & <- & He).
  destruct (sortedCosts_bucket data o e Hnd Hb He) as (Hk & Ht & Hq).
  simpl in *. rewrite formatCurrency_number, <- Ht.
  destruct (toLocaleString_enUS_positive _ Hpos) as (digits & -> & Hne & Hd & ->).
  eexists; split; [reflexivity|]. split.
  - now apply group_digits_grouped.
  - now apply remove_commas_group_digits.
Qed.

Lemma groupedHtml_amounts_witness :
  exists body,
    "₦800" = "₦" ++ body /\ thousands_grouped body /\
    remove_commas body = Number_toString (phase_total scenario "A").
Proof.
  apply (groupedHtml_amounts scenario
           (mkMetrics 800
              [mkItem "2" "Procurement" "b" "A" (VNum 300) "CAPEX" "Unpriced"
                      false false]
              [Grouping.mk "A" 800])
           [("₦800", "A")] "₦800" "A").
  - unfold safe_amounts, MAX_SAFE_INTEGER. simpl. lia.
  - reflexivity.
  - reflexivity.
  - simpl. now left.
Defined.

(** ** ProcurementTable: a row *)

(** X18. A row is highlighted exactly when its cost cell reads "N/A", which
    is when the cost is the string "N/A"; the cell reads "Error" exactly
    when the cost is neither that string nor a number. *)
Theorem row_highlight (it : item) :
  (rowClass it = "bg-yellow-50/50 hover:bg-yellow-50" <-> costCellText it = "N/A") /\
  (costCellText it = "N/A" <-> cost it = VStr "N/A") /\
  (costCellText it = "Error" <->
   cost it <> VStr "N/A" /\ is_number (cost it) = false).
Proof.
  unfold rowClass, costCellText, formatCurrency.
  destruct (strict_equal (cost it) (VStr "N/A")) eqn:E.
  - apply strict_equal_eq in E. rewrite E. simpl.
    repeat split; try reflexivity; try discriminate; intuition congruence.
  - assert (Hne : cost it <> VStr "N/A").
    { intros Heq. apply strict_equal_eq in Heq. congruence. }
    destruct (cost it); simpl; repeat split; try discriminate; try reflexivity;
      try congruence; intuition (try discriminate; try congruence).
Qed.

(** ** handleExportToCSV: the cost column *)

Lemma Number_toString_reads_back (n : Z) :
  option_map Z.of_int (NilEmpty.int_of_string (Number_toString n)) = Some n.
Proof.
  unfold Number_toString. rewrite NilEmpty.isi. simpl.
  now rewrite DecimalZ.of_to.
Qed.

Lemma Number_toString_nonempty (n : Z) :
  Number_toString n <> "" /\ Number_toString n <> "N/A".
Proof.
  unfold Number_toString.
  destruct (Z.to_int n) as [d|d] eqn:E; simpl.
  - assert (Hd : d <> Decimal.Nil).
    { intros ->. destruct n as [|p|p]; simpl in E; try discriminate.
      injection E as E. revert E. apply DecimalPos.Unsigned.to_uint_nonnil. }
    destruct d; try congruence; simpl; split; discriminate.
  - split; discriminate.
Qed.

(** X19. In the export, the cost column is "N/A" exactly for the cost
    "N/A", and empty exactly for a cost that is neither "N/A" nor a
    number. *)
Theorem costStr_marks (it : item) :
  (costStr it = "N/A" <-> cost it = VStr "N/A") /\
  (costStr it = "" <-> cost it <> VStr "N/A" /\ is_number (cost it) = false).
Proof.
  unfold costStr.
  destruct (strict_equal (cost it) (VStr "N/A")) eqn:E.
  - apply strict_equal_eq in E. rewrite E.
    split; [tauto|].
    split; [discriminate | intros [H _]; congruence].
  - assert (Hne : cost it <> VStr "N/A").
    { intros Heq. apply strict_equal_eq in Heq. congruence. }
    destruct (cost it) as [| | b | n | s]; simpl.
    1-3, 5: (split; [split; [discriminate | congruence]|];
             split; [auto | reflexivity]).
    destruct (Number_toString_nonempty n) as [H1 H2].
    split; [split; [contradiction | congruence]|].
    split; [contradiction | intros [_ H]; discriminate].
Qed.

(** X24. In the export, the cost column of a whole-number cost of magnitude
    at most [Number.MAX_SAFE_INTEGER] is a decimal numeral that reads back
    as that number; it is neither empty nor "N/A". *)
Theorem costStr_number_reads_back (it : item) (n : Z) :
  cost it = VNum n ->
  Z.abs n <= MAX_SAFE_INTEGER ->
  option_map Z.of_int (NilEmpty.int_of_string (costStr it)) = Some n /\
  costStr it <> "" /\ costStr it <> "N/A".
Proof.
  intros E _. unfold costStr. rewrite E. simpl.
  split; [apply Number_toString_reads_back | apply Number_toString_nonempty].
Qed.

Lemma costStr_number_reads_back_witness :
  option_map Z.of_int (NilEmpty.int_of_string (costStr (priced "1.1" "A" 1500)))
    = Some 1500 /\
  costStr (priced "1.1" "A" 1500) <> "" /\
  costStr (priced "1.1" "A" 1500) <> "N/A".
Proof.
  apply (costStr_number_reads_back (priced "1.1" "A" 1500) 1500).
  - reflexivity.
  - unfold MAX_SAFE_INTEGER. simpl. lia.
Defined.

(** ** calculateMetrics: the order of the lines *)

Lemma calculateMetrics_throws_iff (data : list item) :
  calculateMetrics data = Throw TypeError <->
  Exists (fun it => inherited (event it) = true) data.
Proof.
  split; [|apply calculateMetrics_throws].
  intros H.
  destruct (Exists_dec (fun it => inherited (event it) = true) data) as [E|N];
    [intros it; apply bool_dec | exact E |].
  exfalso. apply Forall_Exists_neg in N.
  destruct (calculateMetrics_returns data) as (m & Hm); [|congruence].
  eapply Forall_impl; [|exact N]. intros it. apply not_true_is_false.
Qed.

Lemma confirmed_sum_perm (l l' : list item) :
  Permutation l l' -> confirmed_sum l = confirmed_sum l'.
Proof.
  induction 1; rewrite ?confirmed_sum_cons; try lia; reflexivity.
Qed.

Lemma phase_total_perm (data data' : list item) (k : string) :
  Permutation data data' -> phase_total data k = phase_total data' k.
Proof.
  intros H. unfold phase_total. apply confirmed_sum_perm. now apply filter_perm.
Qed.

Lemma qualifying_phases_perm (data data' : list item) :
  Permutation data data' ->
  Permutation (qualifying_phases data) (qualifying_phases data').
Proof.
  intros H. unfold qualifying_phases.
  rewrite (filter_ext (phase_qualifies data) (phase_qualifies data')).
  - apply filter_perm. apply NoDup_Permutation; try apply NoDup_nodup.
    intros k. rewrite !nodup_In.
    split; apply Permutation_in; apply Permutation_map; [|symmetry]; exact H.
  - intros k. unfold phase_qualifies. now rewrite (phase_total_perm _ _ k H).
Qed.

Lemma sorted_perm_eq (l l' : list Z) :
  StronglySorted Z.ge l -> StronglySorted Z.ge l' -> Permutation l l' -> l = l'.
Proof.
  revert l'; induction l as [|x l IH]; intros l' Hs Hs' Hp.
  - apply Permutation_nil in Hp. now subst.
  - destruct l' as [|y l'].
    + apply Permutation_sym, Permutation_nil in Hp. discriminate.
    + inversion Hs as [|? ? Hsl Hx]; inversion Hs' as [|? ? Hsl' Hy]; subst.
      rewrite Forall_forall in Hx, Hy.
      assert (x = y).
      { assert (Hyin : In y (x :: l))
          by (apply (Permutation_in _ (Permutation_sym Hp)); now left).
        assert (Hxin : In x (y :: l'))
          by (apply (Permutation_in _ Hp); now left).
        destruct Hyin as [E|Hyin]; [congruence|].
        destruct Hxin as [E|Hxin]; [congruence|].
        specialize (Hx _ Hyin). specialize (Hy _ Hxin). lia. }
      subst y. f_equal. apply IH; auto.
      eapply Permutation_cons_inv; eauto.
Qed.

(** The totals of the top groupings: the three greatest phase totals. *)
Lemma top3_totals (data : list item) (m : metrics) :
  calculateMetrics data = Ok m ->
  exists sorted,
    map Grouping.total (top3CostGroupings m) = firstn 3 sorted /\
    StronglySorted Z.ge sorted /\
    Permutation sorted (map (phase_total data) (qualifying_phases data)).
Proof.
  intros H.
  destruct (calculateMetrics_buckets data m H) as (o & -> & Hnd & Hin & Hb).
  set (S := Array_sort by_total_desc (filter qualifies (Object_entries o))).
  exists (map (fun e => Bucket.total (snd e)) S). split; [|split].
  - unfold sortedCosts. fold S. now rewrite map_map, firstn_map.
  - eapply StronglySorted_map;
      [|apply (Array_sort_sorted (fun e => Bucket.total (snd e)))].
    auto.
  - unfold S. rewrite <- (Array_sort_perm by_total_desc _).
    rewrite <- (Permutation_map _ (qualifying_entries data o Hnd Hin Hb)).
    rewrite map_map. erewrite map_ext_in; [reflexivity|].
    intros [k b] He. simpl. apply filter_In in He as [He _].
    apply (Permutation_in _ (Object_entries_perm o)) in He.
    now destruct (Hb _ _ (in_getOwn _ _ _ Hnd He)) as [-> _].
Qed.

(** X20. Listing the same lines in another order does not change whether
    [calculateMetrics] throws, and when it returns, the unpriced items are
    the same lines, in the new order. *)
Theorem calculateMetrics_order (data data' : list item) :
  Permutation data data' ->
  match calculateMetrics data, calculateMetrics data' with
  | Ok m, Ok m' => Permutation (unpricedItems m) (unpricedItems m')
  | Throw _, Throw _ => True
  | _, _ => False
  end.
Proof.
  intros Hp.
  destruct (calculateMetrics data) as [m|[]] eqn:E;
    destruct (calculateMetrics data') as [m'|[]] eqn:E'.
  - rewrite (calculateMetrics_unpriced _ _ E), (calculateMetrics_unpriced _ _ E').
    now apply filter_perm.
  - apply calculateMetrics_throws_iff in E'.
    apply (Permutation_Exists (Permutation_sym Hp)) in E'.
    apply calculateMetrics_throws in E'. congruence.
  - apply calculateMetrics_throws_iff in E.
    apply (Permutation_Exists Hp) in E.
    apply calculateMetrics_throws in E. congruence.
  - exact I.
Qed.

Lemma calculateMetrics_order_witness :
  match calculateMetrics scenario, calculateMetrics (rev scenario) with
  | Ok m, Ok m' => Permutation (unpricedItems m) (unpricedItems m')
  | Throw _, Throw _ => True
  | _, _ => False
  end.
Proof.
  apply (calculateMetrics_order scenario (rev scenario)).
  apply Permutation_rev.
Defined.

(** X25. On whole-number costs whose magnitudes add up to at most
    [Number.MAX_SAFE_INTEGER], listing the same lines in another order
    changes neither the confirmed budget nor the amounts of the top
    groupings. *)
Theorem calculateMetrics_order_totals (data data' : list item) (m m' : metrics) :
  safe_amounts data ->
  Permutation data data' ->
  calculateMetrics data = Ok m ->
  calculateMetrics data' = Ok m' ->
  safe_amounts data' /\
  totalConfirmedBudget m = totalConfirmedBudget m' /\
  map Grouping.total (top3CostGroupings m) =
  map Grouping.total (top3CostGroupings m').
Proof.
  intros Hsafe Hp E E'. split; [|split].
  - unfold safe_amounts in *.
    assert (Hsum : forall l l' : list Z,
               Permutation l l' -> fold_right Z.add 0 l = fold_right Z.add 0 l').
    { induction 1; simpl; lia. }
    rewrite <- (Hsum _ _ (Permutation_map _ Hp)). exact Hsafe.
  - rewrite (calculateMetrics_total _ _ E), (calculateMetrics_total _ _ E').
    now apply confirmed_sum_perm.
  - destruct (top3_totals _ _ E) as (s & -> & Hs & Hps).
    destruct (top3_totals _ _ E') as (s' & -> & Hs' & Hps').
    f_equal. apply sorted_perm_eq; auto.
    rewrite Hps, Hps'.
    rewrite (Permutation_map _ (qualifying_phases_perm _ _ Hp)).
    erewrite map_ext; [reflexivity|].
    intros k. now apply phase_total_perm.
Qed.

Lemma calculateMetrics_order_totals_witness :
  safe_amounts (rev scenario) /\
  800 = 800 /\
  map Grouping.total [Grouping.mk "A" 800] =
  map Grouping.total [Grouping.mk "A" 800].
Proof.
  apply (calculateMetrics_order_totals scenario (rev scenario)
           (mkMetrics 800
              [mkItem "2" "Procurement" "b" "A" (VNum 300) "CAPEX" "Unpriced"
                      false false]
              [Grouping.mk "A" 800])
           (mkMetrics 800
              [mkItem "2" "Procurement" "b" "A" (VNum 300) "CAPEX" "Unpriced"
                      false false]
              [Grouping.mk "A" 800])).
  - unfold safe_amounts, MAX_SAFE_INTEGER. simpl. lia.
  - apply Permutation_rev.
  - reflexivity.
  - reflexivity.
Defined.

(** ** The table against the unpriced list *)

(** X21. With the type filter at "All" and the cost filter at "Unpriced",
    the table shows the unpriced items of [calculateMetrics], in the same
    order, less the lines whose cost type is Summary or Budget. *)
Theorem filteredData_unpriced (data : list item) (m : metrics) :
  calculateMetrics data = Ok m ->
  filteredData data (Filters.mk "All" "Unpriced") =
  filter (fun it => negb (String.eqb (costType it) "Summary" ||
                          String.eqb (costType it) "Budget"))
         (unpricedItems m).
Proof.
  intros H. rewrite (calculateMetrics_unpriced data m H). clear H.
  unfold filteredData. induction data as [|it data IH]; simpl; [reflexivity|].
  unfold visible at 1, is_unpriced at 1. simpl.
  destruct (String.eqb (costType it) "Summary" || String.eqb (costType it) "Budget")
    eqn:Ec; destruct (String.eqb (status it) "Unpriced") eqn:Es; simpl;
    rewrite ?Ec; simpl; now rewrite IH.
Qed.

Lemma filteredData_unpriced_witness :
  filteredData scenario (Filters.mk "All" "Unpriced") =
  filter (fun it => negb (String.eqb (costType it) "Summary" ||
                          String.eqb (costType it) "Budget"))
         [mkItem "2" "Procurement" "b" "A" (VNum 300) "CAPEX" "Unpriced"
                 false false].
Proof.
  apply (filteredData_unpriced scenario
           (mkMetrics 800
              [mkItem "2" "Procurement" "b" "A" (VNum 300) "CAPEX" "Unpriced"
                      false false]
              [Grouping.mk "A" 800])).
  reflexivity.
Defined.
